(** * Chord-Progression-Maker: the note resolver and the MIDI sequencer

    A shallow embedding of [note_to_midi] and [create_midi] as they are
    written in [main.py] and [chord_generator.py], with the Python builtins
    and the [mido] constructors they call, followed by the properties of the
    specification that concern them. *)

From Stdlib Require Import ZArith List String Ascii Bool Lia.
From Stdlib Require Import Floats.
From Stdlib Require DecimalString DecimalZ DecimalPos DecimalFacts.
From Stdlib Require Strings.Byte.
Import ListNotations.

Local Open Scope string_scope.
Local Open Scope Z_scope.

(** ** Exceptions and results *)

(** The exception classes the two scripts can raise, each with its message. *)
Inductive exn : Type :=
| ValueError (msg : string)
| ZeroDivisionError (msg : string)
| OverflowError (msg : string).

Inductive result (A : Type) : Type :=
| Ok (a : A)
| Raise (e : exn).

Arguments Ok {A} a.
Arguments Raise {A} e.

Definition bind {A B : Type} (r : result A) (k : A -> result B) : result B :=
  match r with
  | Ok a => k a
  | Raise e => Raise e
  end.

Notation "'let*' x ':=' r 'in' k" := (bind r (fun x => k))
  (at level 10, x name, r at level 200, k at level 200).

(** ** The Python builtins used by the resolver *)

Module Py.

(** Characters stand for the code points 0..255. *)
Definition ord (c : ascii) : Z := Z.of_N (N_of_ascii c).

(** [str.isspace] on one character, as [str.strip()] uses it: the code
    points 9..13, 28..32, 133 and 160. *)
Definition isspace (c : ascii) : bool :=
  let n := ord c in
  ((9 <=? n) && (n <=? 13)) || ((28 <=? n) && (n <=? 32))
  || (n =? 133) || (n =? 160).

Fixpoint lstrip (s : string) : string :=
  match s with
  | EmptyString => EmptyString
  | String c s' => if isspace c then lstrip s' else s
  end.

Fixpoint rstrip (s : string) : string :=
  match s with
  | EmptyString => EmptyString
  | String c s' =>
      match rstrip s' with
      | EmptyString => if isspace c then EmptyString else String c EmptyString
      | r => String c r
      end
  end.

(** [s.strip()] *)
Definition strip (s : string) : string := rstrip (lstrip s).

(** [len(s)] *)
Definition len (s : string) : Z := Z.of_nat (String.length s).

(** [s[n:]] for a non-negative [n]. *)
Fixpoint slice_from (n : nat) (s : string) : string :=
  match n, s with
  | O, _ => s
  | S n', String _ s' => slice_from n' s'
  | S _, EmptyString => EmptyString
  end.

(** [c.upper()] on one character.  The letters a..z go to A..Z; no other
    code point below 256 has an upper case among the keys of [note_base], and
    the model leaves those unchanged. *)
Definition upper_char (c : ascii) : ascii :=
  let n := ord c in
  if (97 <=? n) && (n <=? 122) then ascii_of_N (Z.to_N (n - 32)) else c.

Definition digit_value (c : ascii) : option Z :=
  let n := ord c in
  if (48 <=? n) && (n <=? 57) then Some (n - 48) else None.

(** The white space [int()] skips around a literal: the ASCII blanks
    9..13 and 32, and the two blanks above 127. *)
Definition int_space (c : ascii) : bool :=
  let n := ord c in
  ((9 <=? n) && (n <=? 13)) || (n =? 32) || (n =? 133) || (n =? 160).

Fixpoint all_int_space (s : string) : bool :=
  match s with
  | EmptyString => true
  | String c s' => int_space c && all_int_space s'
  end.

Fixpoint skip_int_space (s : string) : string :=
  match s with
  | EmptyString => EmptyString
  | String c s' => if int_space c then skip_int_space s' else s
  end.

(** The digits of a literal after its first digit: more digits, single
    underscores between digits, then only white space. *)
Fixpoint int_digits (s : string) (acc : Z) : option Z :=
  match s with
  | EmptyString => Some acc
  | String c s' =>
      match digit_value c with
      | Some v => int_digits s' (10 * acc + v)
      | None =>
          if Ascii.eqb c "_" then
            match s' with
            | String d s'' =>
                match digit_value d with
                | Some v => int_digits s'' (10 * acc + v)
                | None => None
                end
            | EmptyString => None
            end
          else if all_int_space s then Some acc else None
      end
  end.

Definition int_unsigned (s : string) : option Z :=
  match s with
  | String d s' =>
      match digit_value d with
      | Some v => int_digits s' v
      | None => None
      end
  | EmptyString => None
  end.

(** [int(s)] in base 10; [None] stands for its [ValueError].  The
    interpreter's configurable cap on the number of digits, which limits
    [str] and [int] alike, is left out. *)
Definition int (s : string) : option Z :=
  match skip_int_space s with
  | String "+" s' => int_unsigned s'
  | String "-" s' => option_map Z.opp (int_unsigned s')
  | s' => int_unsigned s'
  end.

(** [str(z)] for an integer. *)
Definition str (z : Z) : string :=
  DecimalString.NilEmpty.string_of_int (Z.to_int z).

(** [d.get(k)] on a dict written as its list of items. *)
Fixpoint dict_get (d : list (string * Z)) (k : string) : option Z :=
  match d with
  | [] => None
  | (k', v) :: d' => if String.eqb k' k then Some v else dict_get d' k
  end.

End Py.

(** ** The resolver: [note_to_midi] (identical in both scripts) *)

Definition note_base : list (string * Z) :=
  [ ("C", 0); ("C#", 1); ("D", 2); ("D#", 3); ("E", 4); ("F", 5);
    ("F#", 6); ("G", 7); ("G#", 8); ("A", 9); ("A#", 10); ("B", 11) ].

(** [note[0]] and [note[1]] where the caller has checked the length. *)
Definition char_at (n : nat) (s : string) : ascii :=
  match String.get n s with
  | Some c => c
  | None => Ascii.zero
  end.

Definition str1 (c : ascii) : string := String c EmptyString.

(** Lines 18-22 of [main.py]: the accidental, if the note has one, and the
    characters after it. *)
Definition split_accidental (note : string) : string * string :=
  if (3 <=? Py.len note)
     && (Ascii.eqb (char_at 1 note) "#" || Ascii.eqb (char_at 1 note) "b")
  then (str1 (char_at 1 note), Py.slice_from 2 note)
  else ("", Py.slice_from 1 note).

Definition note_to_midi (note0 : string) : result Z :=
  let note := Py.strip note0 in
  if Py.len note <? 2 then Raise (ValueError ("Invalid note: " ++ note))
  else
    let letter := str1 (Py.upper_char (char_at 0 note)) in
    let '(accidental, octave_str) := split_accidental note in
    match Py.int octave_str with
    | None => Raise (ValueError ("Invalid octave in note: " ++ note))
    | Some octave =>
        let* base_value :=
          if String.eqb accidental "b" then
            match Py.dict_get note_base letter with
            | None => Raise (ValueError ("Invalid note letter: " ++ note))
            | Some natural_value => Ok ((natural_value - 1) mod 12)
            end
          else
            match Py.dict_get note_base (letter ++ accidental) with
            | None => Raise (ValueError ("Invalid note: " ++ note))
            | Some base_value => Ok base_value
            end in
        Ok (12 * (octave + 1) + base_value)
    end.

(** ** Python float arithmetic, on the kernel's binary64 numbers *)

Module PyFloat.

(** [float(z)] for an integer: the nearest binary64 number, or
    [OverflowError] when [z] is beyond the largest one. *)
Definition of_int (z : Z) : result float :=
  let f := SF2Prim (binary_normalize prec emax z 0 false) in
  if PrimFloat.is_infinity f
  then Raise (OverflowError "int too large to convert to float")
  else Ok f.

(** [a / b] on floats. *)
Definition truediv (a b : float) : result float :=
  if PrimFloat.eqb b 0%float
  then Raise (ZeroDivisionError "float division by zero")
  else Ok (PrimFloat.div a b).

(** The integer part of a finite number [(-1)^s * m * 2^e], dropping the
    fraction. *)
Definition trunc_finite (s : bool) (m : positive) (e : Z) : Z :=
  let a := if 0 <=? e then Z.pos m * 2 ^ e else Z.pos m / 2 ^ (- e) in
  if s then - a else a.

(** [int(x)] for a float. *)
Definition to_int (x : float) : result Z :=
  match Prim2SF x with
  | S754_zero _ => Ok 0
  | S754_infinity _ =>
      Raise (OverflowError "cannot convert float infinity to integer")
  | S754_nan => Raise (ValueError "cannot convert float NaN to integer")
  | S754_finite s m e => Ok (trunc_finite s m e)
  end.

End PyFloat.

(** Lines 83-84 of [main.py], 90-91 of [chord_generator.py]:
    [beats_per_chord = chord_duration / (tempo / 1e6)] and
    [ticks_per_chord = int(beats_per_chord * ticks_per_beat)]. *)
Definition beats_per_chord (chord_duration : float) (tempo : Z) : result float :=
  let* tempo_f := PyFloat.of_int tempo in
  let* seconds_per_beat := PyFloat.truediv tempo_f 1e6%float in
  PyFloat.truediv chord_duration seconds_per_beat.

Definition ticks_per_chord (ticks_per_beat : Z) (chord_duration : float)
    (tempo : Z) : result Z :=
  let* beats := beats_per_chord chord_duration tempo in
  let* tpb_f := PyFloat.of_int ticks_per_beat in
  PyFloat.to_int (PrimFloat.mul beats tpb_f).

(** ** The [mido] objects the sequencer builds *)

Inductive msg_type : Type := note_on | note_off.

Inductive msg : Type :=
| MetaMessage_set_tempo (tempo : Z) (time : Z)
| Message (type : msg_type) (note : Z) (velocity : Z) (time : Z).

Definition MidiTrack : Type := list msg.

Record MidiFile : Type := mkMidiFile {
  ticks_per_beat : Z;
  tracks : list MidiTrack
}.

Module Mido.

(** [MidiFile()]: no track, 480 ticks per beat. *)
Definition new_MidiFile : MidiFile := mkMidiFile 480 [].

(** [mido] checks every data byte of a message it builds. *)
Definition check_data_byte (v : Z) : result unit :=
  if (0 <=? v) && (v <=? 127) then Ok tt
  else Raise (ValueError "data byte must be in range 0..127").

(** [Message(type, note=.., velocity=.., time=..)] *)
Definition new_Message (type : msg_type) (note velocity time : Z) : result msg :=
  let* _ := check_data_byte note in
  let* _ := check_data_byte velocity in
  Ok (Message type note velocity time).

(** [MetaMessage('set_tempo', tempo=.., time=..)]: the tempo has to fit
    three bytes. *)
Definition new_set_tempo (tempo time : Z) : result msg :=
  if (0 <=? tempo) && (tempo <=? 16777215)
  then Ok (MetaMessage_set_tempo tempo time)
  else Raise (ValueError "attribute must be in range 0..16777215").

End Mido.

(** ** Statements that run against a [MidiFile]

    A statement either returns or raises, and in both cases leaves the file
    as it has changed it so far. *)

Definition M (A : Type) : Type := MidiFile -> result A * MidiFile.

Definition ret {A : Type} (a : A) : M A := fun w => (Ok a, w).

Definition lift {A : Type} (r : result A) : M A := fun w => (r, w).

Definition bindM {A B : Type} (c : M A) (k : A -> M B) : M B :=
  fun w =>
    match c w with
    | (Ok a, w') => k a w'
    | (Raise e, w') => (Raise e, w')
    end.

Notation "x <- c ;; k" := (bindM c (fun x => k))
  (at level 61, c at next level, right associativity).
Notation "c ;;; k" := (bindM c (fun _ => k))
  (at level 61, right associativity).

(** [for x in xs: body] *)
Fixpoint for_each {A : Type} (xs : list A) (body : A -> M unit) : M unit :=
  match xs with
  | [] => ret tt
  | x :: xs' => body x ;;; for_each xs' body
  end.

(** A track is known by its position in [tracks]: the object appended to
    the file and the object the loop appends to are the same one. *)
Definition track_ref : Type := nat.

Fixpoint update_nth {A : Type} (n : nat) (f : A -> A) (l : list A) : list A :=
  match l, n with
  | [], _ => []
  | x :: l', O => f x :: l'
  | x :: l', S n' => x :: update_nth n' f l'
  end.

(** [file.tracks.append(MidiTrack())], returning the new track. *)
Definition tracks_append_new : M track_ref :=
  fun w => (Ok (List.length (tracks w)),
            mkMidiFile (ticks_per_beat w) (tracks w ++ [[]])%list).

(** [track.append(m)] *)
Definition track_append (t : track_ref) (m : msg) : M unit :=
  fun w => (Ok tt,
            mkMidiFile (ticks_per_beat w)
                       (update_nth t (fun tr => (tr ++ [m])%list) (tracks w))).

Definition get_ticks_per_beat : M Z := fun w => (Ok (ticks_per_beat w), w).

(** ** The sequencer: the body the two [create_midi] share

    [chord_generator.py] runs it on the module's [WORKING_MIDI];
    [main.py] on a [MidiFile()] of its own, which it then saves. *)

Definition create_midi_body (chords : list (list string))
    (chord_duration : float) (tempo : Z) : M unit :=
  track <- tracks_append_new ;;
  m <- lift (Mido.new_set_tempo tempo 0) ;;
  track_append track m ;;;
  ticks_per_beat <- get_ticks_per_beat ;;
  ticks_per_chord <- lift (ticks_per_chord ticks_per_beat chord_duration tempo) ;;
  for_each chords (fun chord =>
    for_each chord (fun note =>
      midi_note <- lift (note_to_midi note) ;;
      m <- lift (Mido.new_Message note_on midi_note 64 0) ;;
      track_append track m) ;;;
    (m <- lift (Mido.new_Message note_off 0 0 ticks_per_chord) ;;
     track_append track m) ;;;
    for_each chord (fun note =>
      midi_note <- lift (note_to_midi note) ;;
      m <- lift (Mido.new_Message note_off midi_note 64 0) ;;
      track_append track m)).

Module ChordGenerator.

(** The module-level [WORKING_MIDI = MidiFile()]. *)
Definition WORKING_MIDI : MidiFile := Mido.new_MidiFile.

(** [create_midi] of [chord_generator.py]: a statement on [WORKING_MIDI]. *)
Definition create_midi (chords : list (list string)) (chord_duration : float)
    (tempo : Z) : M unit :=
  create_midi_body chords chord_duration tempo.

End ChordGenerator.

Module Main.

(** [create_midi] of [main.py] up to its last statement (lines 72-96): the
    [MidiFile] it builds and hands to [mid.save], or the exception raised
    before it.  The whole function, with [mid.save], is
    [MainSaved.create_midi] below. *)
Definition create_midi (chords : list (list string)) (chord_duration : float)
    (tempo : Z) : result MidiFile :=
  match create_midi_body chords chord_duration tempo Mido.new_MidiFile with
  | (Ok _, mid) => Ok mid
  | (Raise e, _) => Raise e
  end.

End Main.

(** ** The vocabulary of the specification *)

(** The seven note letters, the accidentals, and the tokens made of them. *)
Inductive note_letter : Type := LC | LD | LE | LF | LG | LA | LB.

Inductive accidental : Type := Natural | Sharp | Flat.

Definition letter_char (upper : bool) (l : note_letter) : ascii :=
  match l, upper with
  | LC, true => "C" | LC, false => "c"
  | LD, true => "D" | LD, false => "d"
  | LE, true => "E" | LE, false => "e"
  | LF, true => "F" | LF, false => "f"
  | LG, true => "G" | LG, false => "g"
  | LA, true => "A" | LA, false => "a"
  | LB, true => "B" | LB, false => "b"
  end%char.

Definition accidental_str (a : accidental) : string :=
  match a with
  | Natural => ""
  | Sharp => "#"
  | Flat => "b"
  end.

(** A letter in either case, an optional accidental, the octave's text. *)
Definition token (upper : bool) (l : note_letter) (a : accidental)
    (octave_str : string) : string :=
  String (letter_char upper l) (accidental_str a ++ octave_str).

(** The table of the specification: C=0, D=2, E=4, F=5, G=7, A=9, B=11. *)
Definition natural_offset (l : note_letter) : Z :=
  match l with
  | LC => 0 | LD => 2 | LE => 4 | LF => 5 | LG => 7 | LA => 9 | LB => 11
  end.

(** The offset as the specification words it: a sharp adds 1 to the
    natural's entry, a flat is the natural's entry minus 1 modulo 12. *)
Definition semitone_offset (l : note_letter) (a : accidental) : Z :=
  match a with
  | Natural => natural_offset l
  | Sharp => natural_offset l + 1
  | Flat => (natural_offset l - 1) mod 12
  end.

(** The sharps among the keys of [note_base]: C#, D#, F#, G# and A#. *)
Definition in_note_base (l : note_letter) (a : accidental) : bool :=
  match a, l with
  | Sharp, LE | Sharp, LB => false
  | _, _ => true
  end.

(** A string made of the blanks [strip] removes. *)
Fixpoint blank (s : string) : bool :=
  match s with
  | EmptyString => true
  | String c s' => Py.isspace c && blank s'
  end.

(** One of the letters A..G, in either case. *)
Definition is_note_letter (c : ascii) : bool :=
  existsb (Ascii.eqb c) (list_ascii_of_string "ABCDEFGabcdefg").

(** The letter whose flat sounds like the sharp of [l]. *)
Definition next_letter (l : note_letter) : note_letter :=
  match l with
  | LC => LD | LD => LE | LE => LF | LF => LG | LG => LA | LA => LB | LB => LC
  end.

(** A call that ends in a [ValueError], whatever its message. *)
Definition raises_ValueError {A : Type} (r : result A) : Prop :=
  exists msg, r = Raise (ValueError msg).

(** ** Reading a track *)

(** A sounding event: the note-on and note-off messages of a chord's
    notes, which the sequencer writes with velocity 64. *)
Definition is_pitched (m : msg) : bool :=
  match m with
  | Message _ _ velocity _ => velocity =? 64
  | MetaMessage_set_tempo _ _ => false
  end.

(** The duration marker: the note-off of note 0 with velocity 0 that
    carries a chord's length in its time. *)
Definition is_marker (m : msg) : bool :=
  match m with
  | Message note_off 0 0 _ => true
  | _ => false
  end.

Definition msg_time (m : msg) : Z :=
  match m with
  | MetaMessage_set_tempo _ time => time
  | Message _ _ _ time => time
  end.

(** The time at which a track has arrived after its messages: the sum of
    their delta times. *)
Definition elapsed (tr : list msg) : Z :=
  fold_right (fun m t => msg_time m + t) 0 tr.

(** The time of each message of a track that starts at time [t]. *)
Fixpoint times_from (t : Z) (tr : list msg) : list Z :=
  match tr with
  | [] => []
  | m :: tr' => (t + msg_time m) :: times_from (t + msg_time m) tr'
  end.

(** How many messages of a track are of a kind. *)
Definition count_msgs (kind : msg -> bool) (tr : list msg) : nat :=
  List.length (filter kind tr).

(** The messages of one chord of resolved pitches lasting [ticks]. *)
Definition chord_events (ticks : Z) (pitches : list Z) : list msg :=
  (map (fun p => Message note_on p 64 0) pitches
   ++ [Message note_off 0 0 ticks]
   ++ map (fun p => Message note_off p 64 0) pitches)%list.

(** The pitches of a chord whose notes all resolve to data bytes. *)
Fixpoint resolve_chord (chord : list string) : option (list Z) :=
  match chord with
  | [] => Some []
  | note :: chord' =>
      match note_to_midi note, resolve_chord chord' with
      | Ok p, Some ps =>
          if (0 <=? p) && (p <=? 127) then Some (p :: ps) else None
      | _, _ => None
      end
  end.

Fixpoint resolve_all (chords : list (list string)) : option (list (list Z)) :=
  match chords with
  | [] => Some []
  | chord :: chords' =>
      match resolve_chord chord, resolve_all chords' with
      | Some ps, Some pss => Some (ps :: pss)
      | _, _ => None
      end
  end.

(** The track the sequencer writes for resolved chords. *)
Definition sequenced (tempo ticks : Z) (pitches : list (list Z)) : list msg :=
  MetaMessage_set_tempo tempo 0 :: flat_map (chord_events ticks) pitches.

(** The value of a run of decimal digits read from the left. *)
Fixpoint horner (d : Decimal.uint) (acc : Z) : Z :=
  match d with
  | Decimal.Nil => acc
  | Decimal.D0 d' => horner d' (10 * acc + 0)
  | Decimal.D1 d' => horner d' (10 * acc + 1)
  | Decimal.D2 d' => horner d' (10 * acc + 2)
  | Decimal.D3 d' => horner d' (10 * acc + 3)
  | Decimal.D4 d' => horner d' (10 * acc + 4)
  | Decimal.D5 d' => horner d' (10 * acc + 5)
  | Decimal.D6 d' => horner d' (10 * acc + 6)
  | Decimal.D7 d' => horner d' (10 * acc + 7)
  | Decimal.D8 d' => horner d' (10 * acc + 8)
  | Decimal.D9 d' => horner d' (10 * acc + 9)
  end.

(** The start of chord [i]: the time at which the track has arrived once
    the chords before it are written. *)
Definition chord_start (tempo ticks : Z) (pss : list (list Z)) (i : nat) : Z :=
  elapsed (sequenced tempo ticks (firstn i pss)).

(** [t] is the number [(-1)^s * m * 2^e] with its fraction dropped, that is
    rounded toward zero. *)
Definition is_truncation (s : bool) (m : positive) (e : Z) (t : Z) : Prop :=
  (if s then t <= 0 else 0 <= t)
  /\ (0 <= e -> Z.abs t = Z.pos m * 2 ^ e)
  /\ (e < 0 ->
      Z.abs t * 2 ^ (- e) <= Z.pos m < (Z.abs t + 1) * 2 ^ (- e)).

(** The message that strikes ([note_on]) or releases ([note_off]) the
    pitch [p] of a chord. *)
Definition is_note (ty : msg_type) (p : Z) (m : msg) : bool :=
  match m, ty with
  | Message note_on p' velocity _, note_on => (p' =? p) && (velocity =? 64)
  | Message note_off p' velocity _, note_off => (p' =? p) && (velocity =? 64)
  | _, _ => false
  end.

(** ** [trim_wav] of [chord_generator.py] *)

Module Wave.

(** The parameters [getparams()] reads from a WAV file. *)
Record params : Type := mkParams {
  nchannels : Z;
  sampwidth : Z;
  framerate : Z;
  nframes : Z
}.

End Wave.

(** [b[:n]] on a byte string or a list: a negative [n] counts from the
    end. *)
Definition slice_to {A : Type} (n : Z) (l : list A) : list A :=
  if 0 <=? n then firstn (Z.to_nat n) l
  else firstn (Z.to_nat (Z.of_nat (List.length l) + n)) l.

(** [target_frames = int(target_duration * sample_rate)] *)
Definition target_frames (target_duration : float) (sample_rate : Z)
    : result Z :=
  let* sample_rate_f := PyFloat.of_int sample_rate in
  PyFloat.to_int (PrimFloat.mul target_duration sample_rate_f).

(** [trim_wav]: from the parameters and the frames read from the input
    file to the frames written, with the same parameters, to the output
    file.  Opening, reading and writing the files are left out. *)
Definition trim_wav (params : Wave.params) (all_frames : list Byte.byte)
    (target_duration : float) (sample_rate : Z) : result (list Byte.byte) :=
  let* target_frames := target_frames target_duration sample_rate in
  let frame_size := Wave.sampwidth params * Wave.nchannels params in
  let trimmed_frames := slice_to (target_frames * frame_size) all_frames in
  Ok trimmed_frames.

(** ** The rest of the two scripts *)

Module PyText.

(** [c.lower()] on one character below 256: A..Z and the accented capitals
    192..222, the multiplication sign 215 apart, move up by 32. *)
Definition lower_char (c : ascii) : ascii :=
  let n := Py.ord c in
  if ((65 <=? n) && (n <=? 90))
     || ((192 <=? n) && (n <=? 222) && negb (n =? 215))
  then ascii_of_N (Z.to_N (n + 32)) else c.

(** [s.lower()] *)
Fixpoint lower (s : string) : string :=
  match s with
  | EmptyString => EmptyString
  | String c s' => String (lower_char c) (lower s')
  end.

(** [s.split()]: the runs of characters between blanks; [word] is the run
    read so far. *)
Fixpoint split_from (s : string) (word : string) : list string :=
  match s with
  | EmptyString => match word with EmptyString => [] | _ => [word] end
  | String c s' =>
      if Py.isspace c
      then match word with
           | EmptyString => split_from s' EmptyString
           | _ => word :: split_from s' EmptyString
           end
      else split_from s' (word ++ str1 c)
  end.

Definition split (s : string) : list string := split_from s EmptyString.

(** [l[i]]; [None] stands for [IndexError].  A negative index counts from
    the end. *)
Definition list_index {A : Type} (l : list A) (i : Z) : option A :=
  let n := Z.of_nat (List.length l) in
  if (0 <=? i) && (i <? n) then nth_error l (Z.to_nat i)
  else if (- n <=? i) && (i <? 0) then nth_error l (Z.to_nat (n + i))
  else None.

End PyText.

(** What can end a run of one of the scripts before it renders. *)
Inductive failure : Type :=
| FromSequencer (e : exn)
| IntValueError (text : string)
| IndexError
| EOFError
| SaveError (e : exn)
| UnboundLocalError (name : string).

(** The call of the synthesizer a run ends with: its command line and the
    MIDI file saved for it. *)
Inductive outcome : Type :=
| Rendered (command : list string) (saved : MidiFile)
| NoChords
| Failed (f : failure) (w : MidiFile).

Module MidoFile.

(** A delta time [save] can write: an integer that is not negative. *)
Definition writable (m : msg) : bool := 0 <=? msg_time m.

(** [mid.save(filename)] on the messages the sequencer writes: the file
    written, or the [ValueError] of the first negative delta time.  The
    bytes of the file are left out. *)
Definition save (mid : MidiFile) : result MidiFile :=
  if forallb (forallb writable) (tracks mid) then Ok mid
  else Raise (ValueError "message time must be non-negative in MIDI file").

End MidoFile.

Module MainSaved.

(** [create_midi] of [main.py] in full (lines 64-99): the track is built,
    then [mid.save(output_file)] writes it. *)
Definition create_midi (chords : list (list string)) (chord_duration : float)
    (tempo : Z) : result MidiFile :=
  let* mid := Main.create_midi chords chord_duration tempo in
  MidoFile.save mid.

End MainSaved.

(** The twenty progressions of [chord_generator.py]. *)
Definition progressions : list (list (list string)) :=
  [
    [ ["C4"; "E4"; "G4"];
      ["F4"; "A4"; "C5"];
      ["G4"; "B4"; "D5"];
      ["C4"; "E4"; "G4"] ];
    [ ["C4"; "E4"; "G4"];
      ["A3"; "C4"; "E4"];
      ["F4"; "A4"; "C5"];
      ["G4"; "B4"; "D5"] ];
    [ ["C4"; "E4"; "G4"];
      ["G4"; "B4"; "D5"];
      ["A3"; "C4"; "E4"];
      ["F4"; "A4"; "C5"] ];
    [ ["D4"; "F4"; "A4"];
      ["G4"; "B4"; "D5"];
      ["C4"; "E4"; "G4"] ];
    [ ["C4"; "E4"; "G4"];
      ["F4"; "A4"; "C5"];
      ["A3"; "C4"; "E4"];
      ["G4"; "B4"; "D5"] ];
    [ ["C4"; "E4"; "G4"];
      ["A3"; "C4"; "E4"];
      ["D4"; "F4"; "A4"];
      ["G4"; "B4"; "D5"] ];
    [ ["C4"; "E4"; "G4"];
      ["G4"; "B4"; "D5"];
      ["C4"; "E4"; "G4"];
      ["G4"; "B4"; "D5"] ];
    [ ["C4"; "E4"; "G4"];
      ["G4"; "B4"; "D5"];
      ["F4"; "A4"; "C5"];
      ["C4"; "E4"; "G4"] ];
    [ ["C4"; "E4"; "G4"];
      ["A3"; "C4"; "E4"];
      ["E4"; "G4"; "B4"];
      ["F4"; "A4"; "C5"] ];
    [ ["C4"; "E4"; "G4"];
      ["E4"; "G4"; "B4"];
      ["F4"; "A4"; "C5"];
      ["G4"; "B4"; "D5"] ];
    [ ["C4"; "E4"; "G4"];
      ["F4"; "A4"; "C5"];
      ["C4"; "E4"; "G4"];
      ["G4"; "B4"; "D5"] ];
    [ ["C4"; "E4"; "G4"];
      ["A3"; "C4"; "E4"];
      ["D4"; "F4"; "A4"];
      ["G4"; "B4"; "D5"];
      ["C4"; "E4"; "G4"] ];
    [ ["C4"; "E4"; "G4"];
      ["F4"; "A4"; "C5"];
      ["G4"; "B4"; "D5"];
      ["A3"; "C4"; "E4"] ];
    [ ["A3"; "C4"; "E4"];
      ["F4"; "A4"; "C5"];
      ["C4"; "E4"; "G4"];
      ["G4"; "B4"; "D5"] ];
    [ ["D4"; "F4"; "A4"];
      ["A3"; "C4"; "E4"];
      ["G4"; "B4"; "D5"];
      ["C4"; "E4"; "G4"] ];
    [ ["C4"; "E4"; "G4"];
      ["G4"; "B4"; "D5"];
      ["D4"; "F4"; "A4"];
      ["F4"; "A4"; "C5"] ];
    [ ["C4"; "E4"; "G4"];
      ["D4"; "F4"; "A4"];
      ["G4"; "B4"; "D5"];
      ["C4"; "E4"; "G4"] ];
    [ ["C4"; "E4"; "G4"];
      ["A3"; "C4"; "E4"];
      ["F4"; "A4"; "C5"];
      ["E4"; "G4"; "B4"] ];
    [ ["E4"; "G4"; "B4"];
      ["A3"; "C4"; "E4"];
      ["F4"; "A4"; "C5"];
      ["G4"; "B4"; "D5"] ];
    [ ["C4"; "E4"; "G4"];
      ["G4"; "B4"; "D5"];
      ["A3"; "C4"; "E4"];
      ["F4"; "A4"; "C5"];
      ["G4"; "B4"; "D5"] ]
  ].

Module ChordGeneratorMain.

Definition SYNTH_PATH : string :=
  "./fluidsynth-2.4.3-win10-x64/bin/fluidsynth.exe".

(** [GenerateWavFromMidi]: saves [WORKING_MIDI] and runs the synthesizer on
    it.  The synthesizer's own run is left out. *)
Definition GenerateWavFromMidi (sf2 midiFileName wavFileName : string)
    (sampleRate : Z) (w : MidiFile) : outcome :=
  let command :=
    [SYNTH_PATH; "-ni"; sf2; midiFileName; "-F"; wavFileName; "-r";
     Py.str sampleRate] in
  match MidoFile.save w with
  | Ok saved => Rendered command saved
  | Raise e => Failed (SaveError e) w
  end.

(** [[progressions[int(idx)] for idx in selectedProgressions]] *)
Fixpoint select_progressions (selectedProgressions : list string)
    : failure + list (list (list string)) :=
  match selectedProgressions with
  | [] => inr []
  | idx :: rest =>
      match Py.int idx with
      | None => inl (IntValueError idx)
      | Some i =>
          match PyText.list_index progressions i with
          | None => inl IndexError
          | Some progression =>
              match select_progressions rest with
              | inl f => inl f
              | inr chords => inr (progression :: chords)
              end
          end
      end
  end.

(** [for chord in chords: create_midi(chord, chord_duration,
    midi_filename, tempo)] with the settings of [main]. *)
Definition add_tracks (chords : list (list (list string))) : M unit :=
  for_each chords
    (fun chord => ChordGenerator.create_midi chord 2%float 500000).

(** The loop of [main] and what follows it.  [inputs] are the lines
    [input()] will return, [path_exists] is [os.path.exists]; [ans],
    [soundfont] and [sample_rate] are the variables of those names, the last
    one [None] until line 330 has assigned it; the prints are left out.
    After the loop, line 352 reads [sample_rate] to build [command], which
    raises [UnboundLocalError] where the variable was never assigned, and
    line 355 calls [GenerateWavFromMidi] with its default sample rate. *)
Fixpoint main_loop (path_exists : string -> bool) (inputs : list string)
    (ans soundfont : string) (sample_rate : option Z) (w : MidiFile)
    : outcome :=
  if String.eqb (Py.strip (PyText.lower ans)) "n"
     || String.eqb (Py.strip (PyText.lower ans)) "no"
  then
    match sample_rate with
    | None => Failed (UnboundLocalError "sample_rate") w
    | Some _ =>
        GenerateWavFromMidi soundfont "my_midi.mid" "my_wav.wav" 44100 w
    end
  else
    match inputs with
    | [] => Failed EOFError w
    | line :: inputs1 =>
        let soundfont := Py.strip line in
        if negb (path_exists soundfont) then
          match inputs1 with
          | [] => Failed EOFError w
          | line1 :: inputs2 =>
              main_loop path_exists inputs2 (Py.strip line1) soundfont
                sample_rate w
          end
        else
          let sample_rate := Some 44100 in
          match inputs1 with
          | [] => Failed EOFError w
          | line1 :: inputs2 =>
              match select_progressions (PyText.split line1) with
              | inl f => Failed f w
              | inr chords =>
                  match add_tracks chords w with
                  | (Raise e, w') => Failed (FromSequencer e) w'
                  | (Ok _, w') =>
                      match inputs2 with
                      | [] => Failed EOFError w'
                      | line2 :: inputs3 =>
                          main_loop path_exists inputs3 line2 soundfont
                            sample_rate w'
                      end
                  end
              end
          end
    end.

(** [main()], started on the module's [WORKING_MIDI]. *)
Definition main (path_exists : string -> bool) (inputs : list string)
    : outcome :=
  main_loop path_exists inputs "y" "" None ChordGenerator.WORKING_MIDI.

End ChordGeneratorMain.

Module MainMain.

(** The reading loop of [main.py]'s [main]; [None] stands for the
    [EOFError] of [input()] when the lines run out. *)
Fixpoint read_chords (inputs : list string) (chords : list (list string))
    : option (list (list string)) :=
  match inputs with
  | [] => None
  | l :: rest =>
      let line := Py.strip l in
      if String.eqb (PyText.lower line) "done" then Some chords
      else
        match line with
        | EmptyString => read_chords rest chords
        | _ => read_chords rest (chords ++ [PyText.split line])%list
        end
  end.

(** [main()] of [main.py]; the prints and the synthesizer's run are left
    out. *)
Definition main (inputs : list string) : outcome :=
  match read_chords inputs [] with
  | None => Failed EOFError Mido.new_MidiFile
  | Some [] => NoChords
  | Some chords =>
      match MainSaved.create_midi chords 2%float 500000 with
      | Raise e => Failed (FromSequencer e) Mido.new_MidiFile
      | Ok mid =>
          Rendered
            ["./path"; "-ni"; "FluidR3_GM.sf2"; "progression.mid"; "-F";
             "progression.wav"; "-r"; "44100"]
            mid
      end
  end.

End MainMain.

(** A text without any of the blanks [strip] and [split] look for. *)
Fixpoint blank_free (s : string) : bool :=
  match s with
  | EmptyString => true
  | String c s' => negb (Py.isspace c) && blank_free s'
  end.

(** A track that is one of the twenty progressions sequenced in full, at
    the tempo and chord duration of [chord_generator.py]'s [main]. *)
Definition preset_track (tr : MidiTrack) : Prop :=
  exists progression pss,
    In progression progressions
    /\ resolve_all progression = Some pss
    /\ tr = sequenced 500000 1920 pss.

(** An answer that ends the loop of [chord_generator.py]'s [main]: n or
    no, in any case, with blanks around. *)
Definition says_no (ans : string) : bool :=
  String.eqb (Py.strip (PyText.lower ans)) "n"
  || String.eqb (Py.strip (PyText.lower ans)) "no".

(** The lines typed in rounds of a soundfont path and an answer. *)
Definition typed_rounds (rounds : list (string * string)) : list string :=
  flat_map (fun round => [fst round; snd round]) rounds.

(** * Properties *)

(** ** Strings *)

Section Strings.

Lemma len_cons (c : ascii) (s : string) : Py.len (String c s) = 1 + Py.len s.
Proof. unfold Py.len. simpl String.length. lia. Qed.

Lemma len_nonneg (s : string) : 0 <= Py.len s.
Proof. unfold Py.len. lia. Qed.

Lemma lstrip_blank_app (pad s : string) :
  blank pad = true -> Py.lstrip (pad ++ s) = Py.lstrip s.
Proof.
  induction pad as [|c pad IH]; simpl; intros H; [reflexivity|].
  apply andb_true_iff in H as [Hc Hpad]. rewrite Hc. auto.
Qed.

Lemma rstrip_blank (pad : string) : blank pad = true -> Py.rstrip pad = "".
Proof.
  induction pad as [|c pad IH]; simpl; intros H; [reflexivity|].
  apply andb_true_iff in H as [Hc Hpad]. rewrite (IH Hpad), Hc. reflexivity.
Qed.

Lemma rstrip_app_blank (s pad : string) :
  blank pad = true -> Py.rstrip (s ++ pad) = Py.rstrip s.
Proof.
  intros H. induction s as [|c s IH]; simpl.
  - now apply rstrip_blank.
  - now rewrite IH.
Qed.

Lemma rstrip_cons (c : ascii) (s : string) :
  Py.rstrip s = s -> s <> "" -> Py.rstrip (String c s) = String c s.
Proof.
  intros H Hne. simpl. rewrite H. destruct s; [congruence|reflexivity].
Qed.

Lemma rstrip_app (a s : string) :
  Py.rstrip s = s -> s <> "" -> Py.rstrip (a ++ s) = a ++ s.
Proof.
  intros H Hne. induction a as [|c a IH]; simpl String.append; [exact H|].
  apply rstrip_cons; [exact IH|]. destruct a; simpl; [exact Hne|discriminate].
Qed.

(** Blanks around a text that neither starts nor ends with one are what
    [strip] removes. *)
Lemma strip_padded (pad1 pad2 : string) (c : ascii) (s : string) :
  blank pad1 = true -> blank pad2 = true ->
  Py.isspace c = false -> Py.rstrip (String c s) = String c s ->
  Py.strip (pad1 ++ String c s ++ pad2) = String c s.
Proof.
  intros H1 H2 Hc Hr. unfold Py.strip.
  rewrite lstrip_blank_app by exact H1.
  change (String c s ++ pad2) with (String c (s ++ pad2)).
  simpl Py.lstrip. rewrite Hc.
  change (String c (s ++ pad2)) with (String c s ++ pad2).
  rewrite rstrip_app_blank by exact H2. exact Hr.
Qed.

End Strings.

(** ** [int] and [str] *)

Section Integers.

Import DecimalString.

Lemma int_digits_uint (d : Decimal.uint) :
  forall acc, Py.int_digits (NilEmpty.string_of_uint d) acc = Some (horner d acc).
Proof.
  induction d; intros acc; simpl; auto.
Qed.

Lemma horner_pos (d : Decimal.uint) :
  forall acc, horner d (Z.pos acc) = Z.pos (Pos.of_uint_acc d acc).
Proof.
  induction d; intros acc; cbn [horner Pos.of_uint_acc];
    try reflexivity;
    match goal with
    | |- horner _ ?a = Z.pos (Pos.of_uint_acc _ ?b) =>
        replace a with (Z.pos b)
          by (rewrite ?Pos2Z.inj_add, ?Pos2Z.inj_mul; lia);
        apply IHd
    end.
Qed.

Lemma horner_zero (d : Decimal.uint) : horner d 0 = Z.of_N (Pos.of_uint d).
Proof.
  induction d; cbn [horner Pos.of_uint]; try reflexivity;
    try exact IHd;
    match goal with
    | |- horner _ ?a = Z.of_N (N.pos (Pos.of_uint_acc _ ?b)) =>
        change a with (Z.pos b); apply horner_pos
    end.
Qed.

Lemma int_unsigned_uint (d : Decimal.uint) :
  d <> Decimal.Nil ->
  Py.int_unsigned (NilEmpty.string_of_uint d) = Some (Z.of_N (Pos.of_uint d)).
Proof.
  intros Hd. rewrite <- horner_zero.
  destruct d; [congruence| ..]; simpl; apply int_digits_uint.
Qed.

Lemma int_of_digits (d : Decimal.uint) :
  d <> Decimal.Nil ->
  Py.int (NilEmpty.string_of_uint d) = Some (Z.of_N (Pos.of_uint d)).
Proof.
  intros Hd. rewrite <- (int_unsigned_uint d Hd).
  destruct d; [congruence| ..]; reflexivity.
Qed.

(** [int(str(z)) == z]. *)
Lemma int_str (z : Z) : Py.int (Py.str z) = Some z.
Proof.
  destruct z as [|p|p]; unfold Py.str; simpl Z.to_int.
  - reflexivity.
  - simpl NilEmpty.string_of_int.
    rewrite int_of_digits by apply DecimalPos.Unsigned.to_uint_nonnil.
    now rewrite DecimalPos.Unsigned.of_to.
  - simpl NilEmpty.string_of_int.
    change (Py.int (String "-" ?s)) with (option_map Z.opp (Py.int_unsigned s)).
    rewrite int_unsigned_uint by apply DecimalPos.Unsigned.to_uint_nonnil.
    now rewrite DecimalPos.Unsigned.of_to.
Qed.

Lemma rstrip_digits (d : Decimal.uint) :
  Py.rstrip (NilEmpty.string_of_uint d) = NilEmpty.string_of_uint d.
Proof.
  induction d; simpl NilEmpty.string_of_uint; [reflexivity| ..];
    simpl Py.rstrip; rewrite IHd;
    destruct (NilEmpty.string_of_uint d); reflexivity.
Qed.

Lemma digits_nonempty (d : Decimal.uint) :
  d <> Decimal.Nil -> NilEmpty.string_of_uint d <> "".
Proof. destruct d; [congruence| ..]; discriminate. Qed.

(** [str(z)] has no blank at its end, and is not empty. *)
Lemma rstrip_str (z : Z) : Py.rstrip (Py.str z) = Py.str z.
Proof.
  destruct z as [|p|p]; unfold Py.str; simpl Z.to_int;
    simpl NilEmpty.string_of_int.
  - reflexivity.
  - apply rstrip_digits.
  - apply rstrip_cons; [apply rstrip_digits|].
    apply digits_nonempty, DecimalPos.Unsigned.to_uint_nonnil.
Qed.

End Integers.

(** ** The resolver *)

Section Resolver.

Lemma len_ge2 (c1 c2 : ascii) (s : string) :
  (Py.len (String c1 (String c2 s)) <? 2) = false.
Proof.
  rewrite !len_cons. pose proof (len_nonneg s). apply Z.ltb_ge. lia.
Qed.

Lemma len_ge3 (c1 c2 c3 : ascii) (s : string) :
  (3 <=? Py.len (String c1 (String c2 (String c3 s)))) = true.
Proof.
  rewrite !len_cons. pose proof (len_nonneg s). apply Z.leb_le. lia.
Qed.

(** A text [int] accepts starts with a blank, a sign or a digit. *)
Lemma int_head (os : string) (o : Z) :
  Py.int os = Some o ->
  exists c s, os = String c s
              /\ Ascii.eqb c "#" = false /\ Ascii.eqb c "b" = false.
Proof.
  destruct os as [|c s]; [discriminate|]. intros H.
  exists c, s. split; [reflexivity|].
  split; match goal with
         | |- Ascii.eqb c ?x = false =>
             destruct (Ascii.eqb_spec c x) as [->|]; [|reflexivity]
         end; vm_compute in H; discriminate H.
Qed.

(** What the resolver does with a stripped note without accidental. *)
Lemma resolve_plain (note0 : string) (lc c : ascii) (s : string) (o : Z) :
  Py.strip note0 = String lc (String c s) ->
  Ascii.eqb c "#" = false -> Ascii.eqb c "b" = false ->
  Py.int (String c s) = Some o ->
  note_to_midi note0 =
    match Py.dict_get note_base (str1 (Py.upper_char lc)) with
    | Some base_value => Ok (12 * (o + 1) + base_value)
    | None => Raise (ValueError ("Invalid note: " ++ String lc (String c s)))
    end.
Proof.
  intros Hs H1 H2 Hi. unfold note_to_midi. rewrite Hs, len_ge2.
  unfold split_accidental.
  change (char_at 1 (String lc (String c s))) with c.
  rewrite H1, H2, andb_false_r.
  change (Py.slice_from 1 (String lc (String c s))) with (String c s).
  rewrite Hi.
  change (String.eqb "" "b") with false. cbv iota.
  change (char_at 0 (String lc (String c s))) with lc.
  change (str1 (Py.upper_char lc) ++ "") with (str1 (Py.upper_char lc)).
  destruct (Py.dict_get note_base (str1 (Py.upper_char lc))); reflexivity.
Qed.

(** ... with a sharp ... *)
Lemma resolve_sharp (note0 : string) (lc c : ascii) (s : string) (o : Z) :
  Py.strip note0 = String lc (String "#" (String c s)) ->
  Py.int (String c s) = Some o ->
  note_to_midi note0 =
    match Py.dict_get note_base (str1 (Py.upper_char lc) ++ "#") with
    | Some base_value => Ok (12 * (o + 1) + base_value)
    | None =>
        Raise (ValueError
                 ("Invalid note: " ++ String lc (String "#" (String c s))))
    end.
Proof.
  intros Hs Hi. unfold note_to_midi. rewrite Hs, len_ge2.
  unfold split_accidental. rewrite len_ge3.
  change (char_at 1 (String lc (String "#" (String c s)))) with "#"%char.
  change (Py.slice_from 2 (String lc (String "#" (String c s))))
    with (String c s).
  cbn [Ascii.eqb Bool.eqb andb orb]. rewrite Hi.
  change (String.eqb (str1 "#") "b") with false. cbv iota.
  change (char_at 0 (String lc (String "#" (String c s)))) with lc.
  change (str1 "#") with "#".
  destruct (Py.dict_get note_base (str1 (Py.upper_char lc) ++ "#"));
    reflexivity.
Qed.

(** ... and with a flat. *)
Lemma resolve_flat (note0 : string) (lc c : ascii) (s : string) (o : Z) :
  Py.strip note0 = String lc (String "b" (String c s)) ->
  Py.int (String c s) = Some o ->
  note_to_midi note0 =
    match Py.dict_get note_base (str1 (Py.upper_char lc)) with
    | Some natural_value => Ok (12 * (o + 1) + (natural_value - 1) mod 12)
    | None =>
        Raise (ValueError
                 ("Invalid note letter: "
                  ++ String lc (String "b" (String c s))))
    end.
Proof.
  intros Hs Hi. unfold note_to_midi. rewrite Hs, len_ge2.
  unfold split_accidental. rewrite len_ge3.
  change (char_at 1 (String lc (String "b" (String c s)))) with "b"%char.
  change (Py.slice_from 2 (String lc (String "b" (String c s))))
    with (String c s).
  cbn [Ascii.eqb Bool.eqb andb orb]. rewrite Hi.
  change (String.eqb (str1 "b") "b") with true. cbv iota.
  change (char_at 0 (String lc (String "b" (String c s)))) with lc.
  destruct (Py.dict_get note_base (str1 (Py.upper_char lc))); reflexivity.
Qed.

Lemma letter_not_space (up : bool) (l : note_letter) :
  Py.isspace (letter_char up l) = false.
Proof. destruct l, up; reflexivity. Qed.

Lemma rstrip_token (up : bool) (l : note_letter) (a : accidental)
    (os : string) :
  Py.rstrip os = os -> os <> "" ->
  Py.rstrip (token up l a os) = token up l a os.
Proof.
  intros H Hne. unfold token. apply rstrip_cons.
  - now apply rstrip_app.
  - destruct a; simpl; [exact Hne|discriminate ..].
Qed.

(** The stripped form of a token between blanks. *)
Lemma strip_token (pad1 pad2 : string) (up : bool) (l : note_letter)
    (a : accidental) (os : string) :
  blank pad1 = true -> blank pad2 = true ->
  Py.rstrip os = os -> os <> "" ->
  Py.strip (pad1 ++ token up l a os ++ pad2) = token up l a os.
Proof.
  intros H1 H2 Hr Hne. unfold token at 1.
  rewrite strip_padded; auto using letter_not_space.
  now apply (rstrip_token up l a os).
Qed.

(** The resolver on the tokens of the specification. *)
Lemma note_to_midi_token (pad1 pad2 : string) (up : bool) (l : note_letter)
    (a : accidental) (os : string) (o : Z) :
  blank pad1 = true -> blank pad2 = true ->
  Py.int os = Some o -> Py.rstrip os = os ->
  note_to_midi (pad1 ++ token up l a os ++ pad2) =
    if in_note_base l a
    then Ok (12 * (o + 1) + semitone_offset l a)
    else Raise (ValueError ("Invalid note: " ++ token up l a os)).
Proof.
  intros H1 H2 Hi Hr.
  destruct (int_head os o Hi) as (c & s & -> & Hs & Hb).
  assert (Hst := strip_token pad1 pad2 up l a (String c s) H1 H2 Hr
                   ltac:(discriminate)).
  destruct a.
  - rewrite (resolve_plain _ _ c s o Hst Hs Hb Hi).
    destruct l, up; reflexivity.
  - rewrite (resolve_sharp _ _ c s o Hst Hi).
    destruct l, up; reflexivity.
  - rewrite (resolve_flat _ _ c s o Hst Hi).
    destruct l, up; reflexivity.
Qed.

Lemma append_empty_r (s : string) : s ++ "" = s.
Proof. induction s; simpl; congruence. Qed.

(** The same for a bare token whose octave is written by [str]. *)
Lemma note_to_midi_str (up : bool) (l : note_letter) (a : accidental) (o : Z) :
  note_to_midi (token up l a (Py.str o)) =
    if in_note_base l a
    then Ok (12 * (o + 1) + semitone_offset l a)
    else Raise (ValueError ("Invalid note: " ++ token up l a (Py.str o))).
Proof.
  pose proof (note_to_midi_token "" "" up l a (Py.str o) o eq_refl eq_refl
                (int_str o) (rstrip_str o)) as H.
  change ("" ++ ?x) with x in H. now rewrite append_empty_r in H.
Qed.

End Resolver.

Section ResolverErrors.

(** A first character outside A..G is under no key of the table, with or
    without a sharp behind it. *)
Lemma not_letter_no_key (c : ascii) :
  is_note_letter c = false ->
  Py.dict_get note_base (str1 (Py.upper_char c)) = None
  /\ Py.dict_get note_base (str1 (Py.upper_char c) ++ "#") = None.
Proof.
  destruct c as [[] [] [] [] [] [] [] []]; intros H;
    solve [discriminate H | split; reflexivity].
Qed.

Lemma split_accidental_cases (note : string) :
  split_accidental note = ("#", Py.slice_from 2 note)
  \/ split_accidental note = ("b", Py.slice_from 2 note)
  \/ split_accidental note = ("", Py.slice_from 1 note).
Proof.
  unfold split_accidental.
  destruct (3 <=? Py.len note); simpl andb; [|auto].
  destruct (Ascii.eqb_spec (char_at 1 note) "#") as [->|_]; [auto|].
  destruct (Ascii.eqb_spec (char_at 1 note) "b") as [->|_]; auto.
Qed.

Lemma short_note_raises (t : string) :
  Py.len (Py.strip t) < 2 ->
  note_to_midi t = Raise (ValueError ("Invalid note: " ++ Py.strip t)).
Proof.
  intros H. unfold note_to_midi.
  apply Z.ltb_lt in H. now rewrite H.
Qed.

Lemma bad_octave_raises (t : string) :
  2 <= Py.len (Py.strip t) ->
  Py.int (snd (split_accidental (Py.strip t))) = None ->
  note_to_midi t =
    Raise (ValueError ("Invalid octave in note: " ++ Py.strip t)).
Proof.
  intros H Hi. unfold note_to_midi.
  apply Z.ltb_ge in H. rewrite H.
  destruct (split_accidental (Py.strip t)) as [acc os]. simpl in Hi.
  now rewrite Hi.
Qed.

Lemma bad_letter_raises (t : string) :
  is_note_letter (char_at 0 (Py.strip t)) = false ->
  raises_ValueError (note_to_midi t).
Proof.
  intros H. destruct (not_letter_no_key _ H) as [Hk Hs].
  unfold raises_ValueError, note_to_midi.
  destruct (Py.len (Py.strip t) <? 2); [eauto|].
  destruct (split_accidental_cases (Py.strip t)) as [E|[E|E]]; rewrite E;
    (destruct (Py.int _); [|eauto]).
  - change (String.eqb "#" "b") with false. cbv iota.
    rewrite Hs. simpl. eauto.
  - change (String.eqb "b" "b") with true. cbv iota.
    rewrite Hk. simpl. eauto.
  - change (String.eqb "" "b") with false. cbv iota.
    change (str1 ?x ++ "") with (str1 x).
    rewrite Hk. simpl. eauto.
Qed.

End ResolverErrors.

(** ** The claims about the resolver *)

(** C1, as the specification states it, fails on the two sharps that are
    not keys of [note_base]: the token E#4 is a letter, a sharp and an
    octave, and the resolver raises instead of returning
    [12 * (4 + 1) + (4 + 1)]. *)
Lemma C1_counterexample_E_sharp :
  note_to_midi (token true LE Sharp (Py.str 4))
    = Raise (ValueError "Invalid note: E#4")
  /\ note_to_midi (token true LE Sharp (Py.str 4))
       <> Ok (12 * (4 + 1) + semitone_offset LE Sharp).
Proof. split; [reflexivity|discriminate]. Qed.

(** C1, amended: for every token made of a letter A..G in either case, an
    optional accidental that is not the sharp of E or of B, and a text that
    [int] reads as the octave [o], with blanks around it, the resolver
    returns [12 * (o + 1) + semitone_offset]; and C4 resolves to 60. *)
Theorem C1_resolve_token (pad1 pad2 : string) (up : bool) (l : note_letter)
    (a : accidental) (os : string) (o : Z) :
  blank pad1 = true -> blank pad2 = true ->
  Py.int os = Some o -> Py.rstrip os = os ->
  in_note_base l a = true ->
  note_to_midi (pad1 ++ token up l a os ++ pad2)
    = Ok (12 * (o + 1) + semitone_offset l a)
  /\ note_to_midi (pad1 ++ token up l a (Py.str o) ++ pad2)
     = Ok (12 * (o + 1) + semitone_offset l a)
  /\ note_to_midi "C4" = Ok 60.
Proof.
  intros H1 H2 Hi Hr Hb. repeat split.
  - rewrite (note_to_midi_token pad1 pad2 up l a os o H1 H2 Hi Hr).
    now rewrite Hb.
  - rewrite (note_to_midi_token pad1 pad2 up l a _ o H1 H2
               (int_str o) (rstrip_str o)).
    now rewrite Hb.
Qed.

Lemma C1_resolve_token_witness :
  blank " " = true /\ blank "" = true
  /\ Py.int "-1" = Some (-1) /\ Py.rstrip "-1" = "-1"
  /\ in_note_base LG Sharp = true
  /\ note_to_midi " g#-1" = Ok 8.
Proof.
  repeat (split; [reflexivity|]).
  exact (proj1 (C1_resolve_token " " "" false LG Sharp "-1" (-1)
                  eq_refl eq_refl eq_refl eq_refl eq_refl)).
Defined.

(** C3: in every octave C# and Db resolve to the same pitch, and so do F#
    and Gb; every flat token resolves to the natural's offset minus one
    modulo 12 on top of the octave; and each sharp of the table resolves to
    the pitch of the flat of the next letter. *)
Theorem C3_enharmonic :
  (forall o : Z,
      note_to_midi ("C#" ++ Py.str o) = note_to_midi ("Db" ++ Py.str o)
      /\ note_to_midi ("F#" ++ Py.str o) = note_to_midi ("Gb" ++ Py.str o))
  /\ (forall (up : bool) (l : note_letter) (o : Z),
         note_to_midi (token up l Flat (Py.str o))
         = Ok (12 * (o + 1) + (natural_offset l - 1) mod 12))
  /\ (forall (up up' : bool) (l : note_letter) (o : Z),
         in_note_base l Sharp = true ->
         exists p,
           note_to_midi (token up l Sharp (Py.str o)) = Ok p
           /\ note_to_midi (token up' (next_letter l) Flat (Py.str o)) = Ok p).
Proof.
  pose proof note_to_midi_str as R.
  split; [|split].
  - intros o. split.
    + change ("C#" ++ Py.str o) with (token true LC Sharp (Py.str o)).
      change ("Db" ++ Py.str o) with (token true LD Flat (Py.str o)).
      now rewrite !R.
    + change ("F#" ++ Py.str o) with (token true LF Sharp (Py.str o)).
      change ("Gb" ++ Py.str o) with (token true LG Flat (Py.str o)).
      now rewrite !R.
  - intros up l o. now rewrite R.
  - intros up up' l o Hl. exists (12 * (o + 1) + semitone_offset l Sharp).
    rewrite !R, Hl. split; [reflexivity|].
    destruct l; try discriminate Hl; reflexivity.
Qed.

Lemma C3_enharmonic_witness :
  in_note_base LA Sharp = true
  /\ exists p,
       note_to_midi (token true LA Sharp (Py.str 3)) = Ok p
       /\ note_to_midi (token false (next_letter LA) Flat (Py.str 3)) = Ok p.
Proof.
  split; [reflexivity|].
  exact (proj2 (proj2 C3_enharmonic) true false LA 3 eq_refl).
Defined.

(** C7: the resolver raises [ValueError], the one error class the code has
    for a malformed note, whenever the stripped token is shorter than 2,
    its first character is outside A..G, or the text after the letter and
    accidental is not an integer for [int]; so it does on the empty token,
    on H4, on C and on Cx. *)
Theorem C7_malformed_raises :
  (forall t : string,
      Py.len (Py.strip t) < 2 ->
      note_to_midi t = Raise (ValueError ("Invalid note: " ++ Py.strip t)))
  /\ (forall t : string,
         is_note_letter (char_at 0 (Py.strip t)) = false ->
         raises_ValueError (note_to_midi t))
  /\ (forall t : string,
         2 <= Py.len (Py.strip t) ->
         Py.int (snd (split_accidental (Py.strip t))) = None ->
         note_to_midi t
         = Raise (ValueError ("Invalid octave in note: " ++ Py.strip t)))
  /\ note_to_midi "" = Raise (ValueError "Invalid note: ")
  /\ note_to_midi "H4" = Raise (ValueError "Invalid note: H4")
  /\ note_to_midi "C" = Raise (ValueError "Invalid note: C")
  /\ note_to_midi "Cx" = Raise (ValueError "Invalid octave in note: Cx").
Proof.
  split; [exact short_note_raises|].
  split; [exact bad_letter_raises|].
  split; [exact bad_octave_raises|].
  repeat split; reflexivity.
Qed.

Lemma C7_malformed_raises_witness :
  (Py.len (Py.strip " C ") < 2
   /\ note_to_midi " C " = Raise (ValueError "Invalid note: C"))
  /\ (is_note_letter (char_at 0 (Py.strip "h#3")) = false
      /\ raises_ValueError (note_to_midi "h#3"))
  /\ (2 <= Py.len (Py.strip "Db4.5")
      /\ Py.int (snd (split_accidental (Py.strip "Db4.5"))) = None
      /\ note_to_midi "Db4.5"
         = Raise (ValueError "Invalid octave in note: Db4.5")).
Proof.
  split; [|split].
  - split; [reflexivity|].
    exact (proj1 C7_malformed_raises " C " eq_refl).
  - split; [reflexivity|].
    exact (proj1 (proj2 C7_malformed_raises) "h#3" eq_refl).
  - split; [discriminate|]. split; [reflexivity|].
    refine (proj1 (proj2 (proj2 C7_malformed_raises)) "Db4.5" _ eq_refl).
    discriminate.
Defined.

(** C10: in every octave Cb resolves to [12 * (o + 1) + 11], the pitch of
    the B of the same written octave, which is 12 above the B of the octave
    below. *)
Theorem C10_c_flat_same_octave (o : Z) :
  note_to_midi ("Cb" ++ Py.str o) = Ok (12 * (o + 1) + 11)
  /\ note_to_midi ("B" ++ Py.str o) = Ok (12 * (o + 1) + 11)
  /\ note_to_midi ("B" ++ Py.str (o - 1)) = Ok (12 * (o + 1) + 11 - 12)
  /\ (natural_offset LC - 1) mod 12 = 11.
Proof.
  change ("Cb" ++ Py.str o) with (token true LC Flat (Py.str o)).
  change ("B" ++ Py.str o) with (token true LB Natural (Py.str o)).
  change ("B" ++ Py.str (o - 1)) with (token true LB Natural (Py.str (o - 1))).
  rewrite !note_to_midi_str. simpl in_note_base. cbv iota.
  repeat split; try reflexivity.
  f_equal. simpl semitone_offset. lia.
Qed.

(** ** The sequencer *)

Section Sequencer.

Local Open Scope list_scope.

(** The statements of the two loops of [create_midi_body]. *)
Local Abbreviation emit ty track :=
  (fun note : string =>
     midi_note <- lift (note_to_midi note) ;;
     m <- lift (Mido.new_Message ty midi_note 64 0) ;;
     track_append track m).

Local Abbreviation play ticks track :=
  (fun chord : list string =>
     for_each chord (emit note_on track) ;;;
     (m <- lift (Mido.new_Message note_off 0 0 ticks) ;;
      track_append track m) ;;;
     for_each chord (emit note_off track)).

Lemma bindM_ok {A B : Type} (c : M A) (k : A -> M B) (w w' : MidiFile) (a : A) :
  c w = (Ok a, w') -> bindM c k w = k a w'.
Proof. unfold bindM. now intros ->. Qed.

Lemma bindM_raise {A B : Type} (c : M A) (k : A -> M B) (w w' : MidiFile)
    (e : exn) :
  c w = (Raise e, w') -> bindM c k w = (Raise e, w').
Proof. unfold bindM. now intros ->. Qed.

Lemma update_nth_last {A : Type} (f : A -> A) (l : list A) (x : A) :
  update_nth (List.length l) f (l ++ [x]) = l ++ [f x].
Proof. induction l; simpl; congruence. Qed.

Lemma track_append_last (tpb : Z) (ts : list MidiTrack) (tr : MidiTrack)
    (m : msg) :
  track_append (List.length ts) m (mkMidiFile tpb (ts ++ [tr]))
  = (Ok tt, mkMidiFile tpb (ts ++ [tr ++ [m]])).
Proof. unfold track_append. simpl. now rewrite update_nth_last. Qed.

Lemma new_Message_ok (ty : msg_type) (p v t : Z) :
  (0 <=? p) && (p <=? 127) = true -> (0 <=? v) && (v <=? 127) = true ->
  Mido.new_Message ty p v t = Ok (Message ty p v t).
Proof.
  intros Hp Hv. unfold Mido.new_Message, Mido.check_data_byte.
  now rewrite Hp, Hv.
Qed.

Lemma resolve_chord_cons (note : string) (chord : list string) (qs : list Z) :
  resolve_chord (note :: chord) = Some qs ->
  exists p ps, qs = p :: ps /\ note_to_midi note = Ok p
               /\ (0 <=? p) && (p <=? 127) = true
               /\ resolve_chord chord = Some ps.
Proof.
  simpl. destruct (note_to_midi note) as [p|]; [|discriminate].
  destruct (resolve_chord chord) as [ps|]; [|discriminate].
  destruct ((0 <=? p) && (p <=? 127)) eqn:Hp; [|discriminate].
  intros [= <-]. now exists p, ps.
Qed.

Lemma resolve_all_cons (chord : list string) (chords : list (list string))
    (qss : list (list Z)) :
  resolve_all (chord :: chords) = Some qss ->
  exists ps pss, qss = ps :: pss /\ resolve_chord chord = Some ps
                 /\ resolve_all chords = Some pss.
Proof.
  simpl. destruct (resolve_chord chord) as [ps|]; [|discriminate].
  destruct (resolve_all chords) as [pss|]; [|discriminate].
  intros [= <-]. now exists ps, pss.
Qed.

Variables (tpb : Z) (ts : list MidiTrack).

Lemma emit_ok (ty : msg_type) (note : string) (p : Z) (tr : MidiTrack) :
  note_to_midi note = Ok p -> (0 <=? p) && (p <=? 127) = true ->
  emit ty (List.length ts) note (mkMidiFile tpb (ts ++ [tr]))
  = (Ok tt, mkMidiFile tpb (ts ++ [tr ++ [Message ty p 64 0]])).
Proof.
  intros Hn Hp. cbv beta.
  rewrite (bindM_ok _ _ _ (mkMidiFile tpb (ts ++ [tr])) p)
    by (unfold lift; now rewrite Hn).
  rewrite (bindM_ok _ _ _ (mkMidiFile tpb (ts ++ [tr])) (Message ty p 64 0))
    by (unfold lift; now rewrite new_Message_ok).
  apply track_append_last.
Qed.

Lemma emit_raise (ty : msg_type) (note : string) (e : exn) (w : MidiFile) :
  note_to_midi note = Raise e ->
  emit ty (List.length ts) note w = (Raise e, w).
Proof.
  intros Hn. cbv beta. apply bindM_raise. unfold lift. now rewrite Hn.
Qed.

Lemma emit_loop_ok (ty : msg_type) (chord : list string) :
  forall (ps : list Z) (tr : MidiTrack),
    resolve_chord chord = Some ps ->
    for_each chord (emit ty (List.length ts)) (mkMidiFile tpb (ts ++ [tr]))
    = (Ok tt,
       mkMidiFile tpb (ts ++ [tr ++ map (fun p => Message ty p 64 0) ps])).
Proof.
  induction chord as [|note chord IH]; intros qs tr H.
  - injection H as <-. simpl. now rewrite app_nil_r.
  - destruct (resolve_chord_cons _ _ _ H) as (p & ps & -> & Hn & Hp & Hc).
    cbn [for_each].
    rewrite (bindM_ok _ _ _ _ tt (emit_ok ty note p tr Hn Hp)).
    rewrite (IH ps _ Hc). cbn [map]. now rewrite <- app_assoc.
Qed.

Lemma emit_loop_raise (ty : msg_type) (bad : string) (e : exn)
    (ns2 : list string) (ns1 : list string) :
  forall (ps1 : list Z) (tr : MidiTrack),
    resolve_chord ns1 = Some ps1 -> note_to_midi bad = Raise e ->
    for_each (ns1 ++ bad :: ns2) (emit ty (List.length ts))
      (mkMidiFile tpb (ts ++ [tr]))
    = (Raise e,
       mkMidiFile tpb (ts ++ [tr ++ map (fun p => Message ty p 64 0) ps1])).
Proof.
  induction ns1 as [|note ns1 IH]; intros qs tr H Hbad.
  - injection H as <-. cbn [app for_each map]. rewrite app_nil_r.
    apply bindM_raise. now apply emit_raise.
  - destruct (resolve_chord_cons _ _ _ H) as (p & ps & -> & Hn & Hp & Hc).
    cbn [app for_each].
    rewrite (bindM_ok _ _ _ _ tt (emit_ok ty note p tr Hn Hp)).
    rewrite (IH ps _ Hc Hbad). cbn [map]. now rewrite <- app_assoc.
Qed.

Lemma play_ok (ticks : Z) (chord : list string) (ps : list Z) (tr : MidiTrack) :
  resolve_chord chord = Some ps ->
  play ticks (List.length ts) chord (mkMidiFile tpb (ts ++ [tr]))
  = (Ok tt, mkMidiFile tpb (ts ++ [tr ++ chord_events ticks ps])).
Proof.
  intros H. cbv beta.
  rewrite (bindM_ok _ _ _ _ tt (emit_loop_ok note_on chord ps tr H)).
  rewrite (bindM_ok _ _ _
             (mkMidiFile tpb
                (ts ++ [(tr ++ map (fun p => Message note_on p 64 0) ps)
                        ++ [Message note_off 0 0 ticks]])) tt).
  - rewrite (emit_loop_ok note_off chord ps _ H).
    unfold chord_events. now rewrite <- !app_assoc.
  - rewrite (bindM_ok _ _ _ _ (Message note_off 0 0 ticks))
      by reflexivity.
    apply track_append_last.
Qed.

Lemma play_raise (ticks : Z) (bad : string) (e : exn) (ns1 ns2 : list string)
    (ps1 : list Z) (tr : MidiTrack) :
  resolve_chord ns1 = Some ps1 -> note_to_midi bad = Raise e ->
  play ticks (List.length ts) (ns1 ++ bad :: ns2) (mkMidiFile tpb (ts ++ [tr]))
  = (Raise e,
     mkMidiFile tpb
       (ts ++ [tr ++ map (fun p => Message note_on p 64 0) ps1])).
Proof.
  intros H Hbad. cbv beta. apply bindM_raise. now apply emit_loop_raise.
Qed.

Lemma play_loop_ok (ticks : Z) (chords : list (list string)) :
  forall (pss : list (list Z)) (tr : MidiTrack),
    resolve_all chords = Some pss ->
    for_each chords (play ticks (List.length ts)) (mkMidiFile tpb (ts ++ [tr]))
    = (Ok tt,
       mkMidiFile tpb (ts ++ [tr ++ flat_map (chord_events ticks) pss])).
Proof.
  induction chords as [|chord chords IH]; intros qss tr H.
  - injection H as <-. simpl. now rewrite app_nil_r.
  - destruct (resolve_all_cons _ _ _ H) as (ps & pss & -> & Hc & Hcs).
    cbn [for_each].
    rewrite (bindM_ok _ _ _ _ tt (play_ok ticks chord ps tr Hc)).
    rewrite (IH pss _ Hcs). cbn [flat_map]. now rewrite <- app_assoc.
Qed.

Lemma play_loop_raise (ticks : Z) (bad : string) (e : exn)
    (ns1 ns2 : list string) (ps1 : list Z) (post : list (list string))
    (pre : list (list string)) :
  forall (pss : list (list Z)) (tr : MidiTrack),
    resolve_all pre = Some pss ->
    resolve_chord ns1 = Some ps1 -> note_to_midi bad = Raise e ->
    for_each (pre ++ (ns1 ++ bad :: ns2) :: post) (play ticks (List.length ts))
      (mkMidiFile tpb (ts ++ [tr]))
    = (Raise e,
       mkMidiFile tpb
         (ts ++ [tr ++ flat_map (chord_events ticks) pss
                    ++ map (fun p => Message note_on p 64 0) ps1])).
Proof.
  induction pre as [|chord pre IH]; intros qss tr H H1 Hbad.
  - injection H as <-. cbn [app for_each flat_map].
    apply bindM_raise. now apply play_raise.
  - destruct (resolve_all_cons _ _ _ H) as (ps & pss & -> & Hc & Hcs).
    cbn [app for_each].
    rewrite (bindM_ok _ _ _ _ tt (play_ok ticks chord ps tr Hc)).
    rewrite (IH pss _ Hcs H1 Hbad). cbn [flat_map].
    now rewrite <- !app_assoc.
Qed.

End Sequencer.

Section Body.

Local Open Scope list_scope.

Lemma set_tempo_ok (tempo : Z) :
  (0 <=? tempo) && (tempo <=? 16777215) = true ->
  Mido.new_set_tempo tempo 0 = Ok (MetaMessage_set_tempo tempo 0).
Proof. intros H. unfold Mido.new_set_tempo. now rewrite H. Qed.

(** The statements of [create_midi_body] before its loop. *)
Lemma body_prologue (chords : list (list string)) (dur : float) (tempo : Z)
    (tpb : Z) (ts : list MidiTrack) (r : result Z) :
  (0 <=? tempo) && (tempo <=? 16777215) = true ->
  ticks_per_chord tpb dur tempo = r ->
  create_midi_body chords dur tempo (mkMidiFile tpb ts)
  = match r with
    | Ok ticks =>
        for_each chords
          (fun chord =>
             for_each chord
               (fun note =>
                  midi_note <- lift (note_to_midi note) ;;
                  m <- lift (Mido.new_Message note_on midi_note 64 0) ;;
                  track_append (List.length ts) m) ;;;
             (m <- lift (Mido.new_Message note_off 0 0 ticks) ;;
              track_append (List.length ts) m) ;;;
             for_each chord
               (fun note =>
                  midi_note <- lift (note_to_midi note) ;;
                  m <- lift (Mido.new_Message note_off midi_note 64 0) ;;
                  track_append (List.length ts) m))
          (mkMidiFile tpb (ts ++ [[MetaMessage_set_tempo tempo 0]]))
    | Raise e =>
        (Raise e, mkMidiFile tpb (ts ++ [[MetaMessage_set_tempo tempo 0]]))
    end.
Proof.
  intros Ht Hr. unfold create_midi_body.
  rewrite (bindM_ok _ _ _ (mkMidiFile tpb (ts ++ [[]])) (List.length ts))
    by reflexivity.
  rewrite (bindM_ok _ _ _ (mkMidiFile tpb (ts ++ [[]]))
             (MetaMessage_set_tempo tempo 0))
    by (unfold lift; now rewrite set_tempo_ok).
  rewrite (bindM_ok _ _ _ _ tt (track_append_last tpb ts [] _)).
  cbn [app].
  rewrite (bindM_ok _ _ _
             (mkMidiFile tpb (ts ++ [[MetaMessage_set_tempo tempo 0]])) tpb)
    by reflexivity.
  destruct r as [ticks|e].
  - now rewrite (bindM_ok _ _ _
                   (mkMidiFile tpb (ts ++ [[MetaMessage_set_tempo tempo 0]]))
                   ticks)
      by (unfold lift; cbn [ticks_per_beat]; now rewrite Hr).
  - apply bindM_raise. unfold lift. cbn [ticks_per_beat]. now rewrite Hr.
Qed.

(** A progression whose notes all resolve is written out in full. *)
Lemma body_ok (chords : list (list string)) (dur : float) (tempo : Z)
    (w : MidiFile) (ticks : Z) (pss : list (list Z)) :
  (0 <=? tempo) && (tempo <=? 16777215) = true ->
  ticks_per_chord (ticks_per_beat w) dur tempo = Ok ticks ->
  resolve_all chords = Some pss ->
  create_midi_body chords dur tempo w
  = (Ok tt,
     mkMidiFile (ticks_per_beat w)
       (tracks w ++ [sequenced tempo ticks pss])).
Proof.
  destruct w as [tpb ts]. cbn [ticks_per_beat tracks]. intros Ht Hr Hc.
  rewrite (body_prologue chords dur tempo tpb ts _ Ht Hr).
  now rewrite (play_loop_ok tpb ts ticks chords pss _ Hc).
Qed.

(** A note that does not resolve stops the sequencer where it stands. *)
Lemma body_raise (pre post : list (list string)) (ns1 ns2 : list string)
    (bad : string) (e : exn) (dur : float) (tempo : Z) (w : MidiFile)
    (ticks : Z) (pss : list (list Z)) (ps1 : list Z) :
  (0 <=? tempo) && (tempo <=? 16777215) = true ->
  ticks_per_chord (ticks_per_beat w) dur tempo = Ok ticks ->
  resolve_all pre = Some pss -> resolve_chord ns1 = Some ps1 ->
  note_to_midi bad = Raise e ->
  create_midi_body (pre ++ (ns1 ++ bad :: ns2) :: post) dur tempo w
  = (Raise e,
     mkMidiFile (ticks_per_beat w)
       (tracks w ++ [sequenced tempo ticks pss
                     ++ map (fun p => Message note_on p 64 0) ps1])).
Proof.
  destruct w as [tpb ts]. cbn [ticks_per_beat tracks].
  intros Ht Hr Hc H1 Hbad.
  rewrite (body_prologue _ dur tempo tpb ts _ Ht Hr).
  now rewrite (play_loop_raise tpb ts ticks bad e ns1 ns2 ps1 post pre pss _
                 Hc H1 Hbad).
Qed.

(** A tempo of 0 divides by zero, whatever the duration. *)
Lemma ticks_tempo_zero (tpb : Z) (dur : float) :
  ticks_per_chord tpb dur 0
  = Raise (ZeroDivisionError "float division by zero").
Proof. reflexivity. Qed.

Lemma body_tempo_zero (chords : list (list string)) (dur : float)
    (w : MidiFile) :
  create_midi_body chords dur 0 w
  = (Raise (ZeroDivisionError "float division by zero"),
     mkMidiFile (ticks_per_beat w)
       (tracks w ++ [[MetaMessage_set_tempo 0 0]])).
Proof.
  destruct w as [tpb ts]. cbn [ticks_per_beat tracks].
  now rewrite (body_prologue chords dur 0 tpb ts _ eq_refl
                 (ticks_tempo_zero tpb dur)).
Qed.

End Body.

(** ** Counting and timing the messages of a track *)

Section Tracks.

Local Open Scope list_scope.

Lemma count_msgs_app (kind : msg -> bool) (a b : list msg) :
  count_msgs kind (a ++ b) = (count_msgs kind a + count_msgs kind b)%nat.
Proof. unfold count_msgs. now rewrite filter_app, length_app. Qed.

Lemma count_pitched_notes (ty : msg_type) (ps : list Z) :
  count_msgs is_pitched (map (fun p => Message ty p 64 0) ps) = List.length ps.
Proof. induction ps; unfold count_msgs in *; simpl; congruence. Qed.

Lemma count_marker_notes (ty : msg_type) (ps : list Z) :
  count_msgs is_marker (map (fun p => Message ty p 64 0) ps) = 0%nat.
Proof.
  induction ps as [|p ps IH]; [reflexivity|].
  unfold count_msgs in *. simpl.
  destruct ty, p; simpl; exact IH.
Qed.

Lemma count_pitched_chord (ticks : Z) (ps : list Z) :
  count_msgs is_pitched (chord_events ticks ps) = (2 * List.length ps)%nat.
Proof.
  unfold chord_events.
  rewrite !count_msgs_app, !count_pitched_notes.
  change (count_msgs is_pitched [Message note_off 0 0 ticks]) with 0%nat.
  lia.
Qed.

Lemma count_marker_chord (ticks : Z) (ps : list Z) :
  count_msgs is_marker (chord_events ticks ps) = 1%nat.
Proof.
  unfold chord_events.
  now rewrite !count_msgs_app, !count_marker_notes.
Qed.

Lemma count_pitched_chords (ticks : Z) (k : nat) (pss : list (list Z)) :
  Forall (fun ps => List.length ps = k) pss ->
  count_msgs is_pitched (flat_map (chord_events ticks) pss)
  = (List.length pss * (2 * k))%nat.
Proof.
  induction 1 as [|ps pss Hk _ IH]; [reflexivity|].
  cbn [flat_map List.length].
  rewrite count_msgs_app, count_pitched_chord, IH, Hk. lia.
Qed.

Lemma count_marker_chords (ticks : Z) (pss : list (list Z)) :
  count_msgs is_marker (flat_map (chord_events ticks) pss) = List.length pss.
Proof.
  induction pss as [|ps pss IH]; [reflexivity|].
  cbn [flat_map List.length].
  now rewrite count_msgs_app, count_marker_chord, IH.
Qed.

Lemma elapsed_app (a b : list msg) : elapsed (a ++ b) = elapsed a + elapsed b.
Proof.
  unfold elapsed. induction a as [|m a IH]; simpl; [reflexivity|].
  rewrite IH. lia.
Qed.

Lemma elapsed_notes (ty : msg_type) (ps : list Z) :
  elapsed (map (fun p => Message ty p 64 0) ps) = 0.
Proof. unfold elapsed. induction ps; simpl; auto. Qed.

Lemma elapsed_chord (ticks : Z) (ps : list Z) :
  elapsed (chord_events ticks ps) = ticks.
Proof.
  unfold chord_events. rewrite !elapsed_app, !elapsed_notes.
  unfold elapsed. simpl. lia.
Qed.

Lemma elapsed_chords (ticks : Z) (pss : list (list Z)) :
  elapsed (flat_map (chord_events ticks) pss)
  = Z.of_nat (List.length pss) * ticks.
Proof.
  induction pss as [|ps pss IH]; [reflexivity|].
  cbn [flat_map List.length]. rewrite elapsed_app, elapsed_chord, IH. lia.
Qed.

Lemma elapsed_sequenced (tempo ticks : Z) (pss : list (list Z)) :
  elapsed (sequenced tempo ticks pss) = Z.of_nat (List.length pss) * ticks.
Proof.
  unfold sequenced.
  change (MetaMessage_set_tempo tempo 0 :: ?l)
    with ([MetaMessage_set_tempo tempo 0] ++ l).
  rewrite elapsed_app, elapsed_chords. reflexivity.
Qed.

Lemma times_from_app (t : Z) (a b : list msg) :
  times_from t (a ++ b) = times_from t a ++ times_from (t + elapsed a) b.
Proof.
  revert t. induction a as [|m a IH]; intros t; simpl.
  - unfold elapsed. simpl. now rewrite Z.add_0_r.
  - rewrite IH. do 3 f_equal. unfold elapsed. simpl. lia.
Qed.

Lemma times_from_notes (t : Z) (ty : msg_type) (ps : list Z) :
  times_from t (map (fun p => Message ty p 64 0) ps)
  = repeat t (List.length ps).
Proof.
  induction ps as [|p ps IH]; [reflexivity|].
  simpl. rewrite Z.add_0_r. now rewrite IH.
Qed.

(** Within a chord that starts at [t]: the note-ons at [t], the marker
    and the note-offs at [t + ticks]. *)
Lemma times_from_chord (t ticks : Z) (ps : list Z) :
  times_from t (chord_events ticks ps)
  = repeat t (List.length ps)
    ++ (t + ticks) :: repeat (t + ticks) (List.length ps).
Proof.
  unfold chord_events.
  rewrite !times_from_app, !times_from_notes, elapsed_notes.
  simpl. unfold elapsed. simpl. now rewrite !Z.add_0_r.
Qed.

Lemma resolve_chord_length (chord : list string) :
  forall ps, resolve_chord chord = Some ps ->
             List.length ps = List.length chord.
Proof.
  induction chord as [|note chord IH]; intros qs H.
  - now injection H as <-.
  - destruct (resolve_chord_cons _ _ _ H) as (p & ps & -> & _ & _ & Hc).
    simpl. now rewrite (IH ps Hc).
Qed.

Lemma resolve_all_length (chords : list (list string)) :
  forall pss, resolve_all chords = Some pss ->
              List.length pss = List.length chords.
Proof.
  induction chords as [|chord chords IH]; intros qss H.
  - now injection H as <-.
  - destruct (resolve_all_cons _ _ _ H) as (ps & pss & -> & _ & Hcs).
    simpl. now rewrite (IH pss Hcs).
Qed.

Lemma resolve_all_lengths (k : nat) (chords : list (list string)) :
  forall pss, resolve_all chords = Some pss ->
              Forall (fun chord => List.length chord = k) chords ->
              Forall (fun ps => List.length ps = k) pss.
Proof.
  induction chords as [|chord chords IH]; intros qss H Hk.
  - injection H as <-. constructor.
  - destruct (resolve_all_cons _ _ _ H) as (ps & pss & -> & Hc & Hcs).
    inversion Hk as [|? ? Hk1 Hk2]; subst. constructor.
    + now rewrite (resolve_chord_length _ _ Hc).
    + now apply IH.
Qed.

Lemma resolve_all_firstn (i : nat) (chords : list (list string)) :
  forall pss, resolve_all chords = Some pss ->
              resolve_all (firstn i chords) = Some (firstn i pss).
Proof.
  revert i. induction chords as [|chord chords IH]; intros i qss H.
  - injection H as <-. now destruct i.
  - destruct (resolve_all_cons _ _ _ H) as (ps & pss & -> & Hc & Hcs).
    destruct i; [reflexivity|]. simpl. now rewrite Hc, (IH i pss Hcs).
Qed.

End Tracks.

(** ** Timing *)

Section Timing.

Lemma trunc_finite_spec (s : bool) (m : positive) (e : Z) :
  is_truncation s m e (PyFloat.trunc_finite s m e).
Proof.
  unfold is_truncation, PyFloat.trunc_finite.
  destruct (Z.leb_spec 0 e) as [He|He].
  - assert (0 < Z.pos m * 2 ^ e) by (apply Z.mul_pos_pos; [lia|];
      now apply Z.pow_pos_nonneg).
    destruct s; repeat split; intros; lia.
  - assert (Hp : 0 < 2 ^ (- e)) by (apply Z.pow_pos_nonneg; lia).
    pose proof (Z.div_pos (Z.pos m) (2 ^ (- e)) ltac:(lia) Hp) as Hq.
    pose proof (Z.mul_div_le (Z.pos m) (2 ^ (- e)) Hp) as Hlo.
    pose proof (Z.mul_succ_div_gt (Z.pos m) (2 ^ (- e)) Hp) as Hhi.
    destruct s; repeat split; intros; try lia;
      rewrite ?Z.abs_opp, ?Z.abs_eq by lia; lia.
Qed.

Lemma trunc_finite_negb (s : bool) (m : positive) (e : Z) :
  PyFloat.trunc_finite (negb s) m e = - PyFloat.trunc_finite s m e.
Proof. unfold PyFloat.trunc_finite. destruct s; simpl; lia. Qed.

(** The pieces of a successful [ticks_per_chord]. *)
Lemma ticks_per_chord_inv (tpb : Z) (dur : float) (tempo : Z) (t : Z) :
  ticks_per_chord tpb dur tempo = Ok t ->
  exists tempo_f spb tpb_f,
    PyFloat.of_int tempo = Ok tempo_f
    /\ spb = PrimFloat.div tempo_f 1e6%float
    /\ PrimFloat.eqb spb 0%float = false
    /\ beats_per_chord dur tempo = Ok (PrimFloat.div dur spb)
    /\ PyFloat.of_int tpb = Ok tpb_f
    /\ PyFloat.to_int (PrimFloat.mul (PrimFloat.div dur spb) tpb_f) = Ok t.
Proof.
  unfold ticks_per_chord, beats_per_chord.
  destruct (PyFloat.of_int tempo) as [tempo_f|]; cbn [bind];
    [|intros H; discriminate H].
  unfold PyFloat.truediv.
  change (PrimFloat.eqb 1e6%float 0%float) with false. cbv iota. cbn [bind].
  destruct (PrimFloat.eqb (PrimFloat.div tempo_f 1e6%float) 0%float) eqn:Hz;
    cbn [bind]; [intros H; discriminate H|].
  destruct (PyFloat.of_int tpb) as [tpb_f|]; cbn [bind]; [|intros H; discriminate H].
  intros H.
  exists tempo_f, (PrimFloat.div tempo_f 1e6%float), tpb_f.
  repeat split; auto.
Qed.

Lemma ticks_per_chord_intro (tpb : Z) (dur : float) (tempo : Z)
    (tempo_f tpb_f : float) :
  PyFloat.of_int tempo = Ok tempo_f ->
  PrimFloat.eqb (PrimFloat.div tempo_f 1e6%float) 0%float = false ->
  PyFloat.of_int tpb = Ok tpb_f ->
  ticks_per_chord tpb dur tempo
  = PyFloat.to_int
      (PrimFloat.mul (PrimFloat.div dur (PrimFloat.div tempo_f 1e6%float))
                     tpb_f).
Proof.
  intros Ht Hz Hf. unfold ticks_per_chord, beats_per_chord.
  rewrite Ht. cbn [bind]. unfold PyFloat.truediv.
  change (PrimFloat.eqb 1e6%float 0%float) with false. cbv iota. cbn [bind].
  rewrite Hz. cbn [bind]. rewrite Hf. reflexivity.
Qed.

(** [int] of a float is the truncation of its value. *)
Lemma to_int_spec (x : float) (t : Z) :
  PyFloat.to_int x = Ok t ->
  match Prim2SF x with
  | S754_zero _ => t = 0
  | S754_finite s m e => is_truncation s m e t
  | _ => False
  end.
Proof.
  unfold PyFloat.to_int. destruct (Prim2SF x) as [s|s| |s m e];
    intros H; try discriminate H; injection H as <-.
  - reflexivity.
  - apply trunc_finite_spec.
Qed.

(** Changing the sign that goes into the rounding changes the sign that
    comes out. *)
Lemma binary_round_aux_negb (s : bool) (m e : Z) (l : location) :
  binary_round_aux prec emax (negb s) m e l
  = SFopp (binary_round_aux prec emax s m e l).
Proof.
  unfold binary_round_aux.
  destruct (shr_fexp prec emax m e l) as [mrs' e'].
  destruct (shr_fexp prec emax _ e' loc_Exact) as [mrs'' e''].
  destruct (shr_m mrs''); [reflexivity| |reflexivity].
  destruct (e'' <=? emax - prec); reflexivity.
Qed.

Lemma xorb_negb_l (a b : bool) : xorb (negb a) b = negb (xorb a b).
Proof. now destruct a, b. Qed.

Lemma SFdiv_opp (x y : spec_float) :
  SF64div (SFopp x) y = SFopp (SF64div x y).
Proof.
  unfold SF64div.
  destruct x as [sx|sx| |sx mx ex], y as [sy|sy| |sy my ey];
    cbn [SFdiv SFopp]; rewrite ?xorb_negb_l; try reflexivity.
  destruct (SFdiv_core_binary prec emax (Z.pos mx) ex (Z.pos my) ey)
    as [[mz ez] lz].
  apply binary_round_aux_negb.
Qed.

Lemma SFmul_opp (x y : spec_float) :
  SF64mul (SFopp x) y = SFopp (SF64mul x y).
Proof.
  unfold SF64mul.
  destruct x as [sx|sx| |sx mx ex], y as [sy|sy| |sy my ey];
    cbn [SFmul SFopp]; rewrite ?xorb_negb_l; try reflexivity.
  apply binary_round_aux_negb.
Qed.

(** A timing that works for one duration works for duration 0, and gives
    no ticks. *)
Lemma ticks_zero_duration (tpb : Z) (tempo : Z) (d0 : float) (t0 : Z) :
  ticks_per_chord tpb d0 tempo = Ok t0 ->
  ticks_per_chord tpb 0%float tempo = Ok 0.
Proof.
  intros H.
  destruct (ticks_per_chord_inv _ _ _ _ H)
    as (tf & spb & f & Ht & -> & Hz & _ & Hf & Hi).
  rewrite (ticks_per_chord_intro tpb 0%float tempo tf f Ht Hz Hf).
  unfold PyFloat.to_int in *.
  rewrite mul_spec, div_spec in *. rewrite eqb_spec in Hz.
  change (Prim2SF 0%float) with (S754_zero false) in *.
  set (S := Prim2SF (PrimFloat.div tf 1e6%float)) in *.
  set (F := Prim2SF f) in *.
  clearbody S F.
  destruct S as [ss|ss| |ss ms es]; try discriminate Hz.
  - revert Hi. generalize (SF64div (Prim2SF d0) (S754_infinity ss)) as X.
    destruct F as [sf|sf| |sf mf ef]; try reflexivity;
      intros [sx|sx| |sx mx ex] Hi; discriminate Hi.
  - replace (SF64div (Prim2SF d0) S754_nan) with S754_nan in Hi
      by (now destruct (Prim2SF d0)).
    discriminate Hi.
  - revert Hi. generalize (SF64div (Prim2SF d0) (S754_finite ss ms es)) as X.
    destruct F as [sf|sf| |sf mf ef]; try reflexivity;
      intros [sx|sx| |sx mx ex] Hi; discriminate Hi.
Qed.

(** Negating the duration negates the ticks. *)
Lemma ticks_negated_duration (tpb : Z) (tempo : Z) (d : float) (t : Z) :
  ticks_per_chord tpb d tempo = Ok t ->
  ticks_per_chord tpb (PrimFloat.opp d) tempo = Ok (- t).
Proof.
  intros H.
  destruct (ticks_per_chord_inv _ _ _ _ H)
    as (tf & spb & f & Ht & -> & Hz & _ & Hf & Hi).
  rewrite (ticks_per_chord_intro tpb _ tempo tf f Ht Hz Hf).
  unfold PyFloat.to_int in *.
  rewrite mul_spec, div_spec in *. rewrite opp_spec, SFdiv_opp, SFmul_opp.
  destruct (SF64mul _ _) as [sp|sp| |sp mp ep]; try discriminate Hi;
    injection Hi as <-; cbn [SFopp].
  - reflexivity.
  - now rewrite trunc_finite_negb.
Qed.

End Timing.

(** ** The claims about the sequencer *)

Section Saving.

Local Open Scope list_scope.

Lemma writable_notes (ty : msg_type) (ps : list Z) :
  forallb MidoFile.writable (map (fun p => Message ty p 64 0) ps) = true.
Proof. induction ps; cbn; auto. Qed.

Lemma writable_chord (ticks : Z) (ps : list Z) :
  0 <= ticks -> forallb MidoFile.writable (chord_events ticks ps) = true.
Proof.
  intros H. unfold chord_events.
  rewrite !forallb_app, !writable_notes. cbn.
  unfold MidoFile.writable. cbn [msg_time].
  apply Z.leb_le in H. now rewrite H.
Qed.

Lemma writable_sequenced (tempo ticks : Z) (pss : list (list Z)) :
  0 <= ticks -> forallb MidoFile.writable (sequenced tempo ticks pss) = true.
Proof.
  intros H. unfold sequenced. cbn [forallb].
  change (MidoFile.writable (MetaMessage_set_tempo tempo 0)) with true.
  cbn [andb]. induction pss as [|ps pss IH]; [reflexivity|].
  cbn [flat_map]. now rewrite forallb_app, writable_chord, IH.
Qed.

Lemma save_presets (w : MidiFile) :
  Forall preset_track (tracks w) -> MidoFile.save w = Ok w.
Proof.
  intros H. unfold MidoFile.save.
  replace (forallb (forallb MidoFile.writable) (tracks w)) with true;
    [reflexivity|].
  symmetry. apply forallb_forall. intros tr Hin.
  rewrite Forall_forall in H.
  destruct (H tr Hin) as (prog & pss & _ & _ & ->).
  apply writable_sequenced. lia.
Qed.

Lemma save_sequenced (tpb tempo ticks : Z) (pss : list (list Z)) :
  0 <= ticks ->
  MidoFile.save (mkMidiFile tpb [sequenced tempo ticks pss])
  = Ok (mkMidiFile tpb [sequenced tempo ticks pss]).
Proof.
  intros H. unfold MidoFile.save. cbn [tracks forallb].
  now rewrite (writable_sequenced tempo ticks pss H).
Qed.

(** A marker that lasts a negative time cannot be saved. *)
Lemma save_negative_marker (tpb tempo ticks : Z) (ps : list Z)
    (pss : list (list Z)) :
  ticks < 0 ->
  raises_ValueError
    (MidoFile.save (mkMidiFile tpb [sequenced tempo ticks (ps :: pss)])).
Proof.
  intros H. unfold MidoFile.save, raises_ValueError.
  replace (forallb (forallb MidoFile.writable)
             (tracks (mkMidiFile tpb [sequenced tempo ticks (ps :: pss)])))
    with false; [eauto|].
  symmetry. cbn [tracks forallb]. rewrite andb_true_r.
  unfold sequenced. cbn [forallb flat_map].
  change (MidoFile.writable (MetaMessage_set_tempo tempo 0)) with true.
  cbn [andb]. rewrite forallb_app. unfold chord_events at 1.
  rewrite !forallb_app, !writable_notes. cbn [forallb andb].
  unfold MidoFile.writable at 1. cbn [msg_time].
  apply Z.leb_gt in H. now rewrite H.
Qed.

(** One message with a negative time makes [save] fail. *)
Lemma save_raises (w : MidiFile) (tr : MidiTrack) (m : msg) :
  In tr (tracks w) -> In m tr -> msg_time m < 0 ->
  raises_ValueError (MidoFile.save w).
Proof.
  intros Htr Hm Hneg. unfold MidoFile.save, raises_ValueError.
  destruct (forallb (forallb MidoFile.writable) (tracks w)) eqn:Hall;
    [|eauto].
  rewrite forallb_forall in Hall. specialize (Hall tr Htr).
  rewrite forallb_forall in Hall. specialize (Hall m Hm).
  unfold MidoFile.writable in Hall. apply Z.leb_le in Hall. lia.
Qed.

Lemma marker_in_sequenced (tempo ticks : Z) (ps : list Z)
    (pss : list (list Z)) :
  In (Message note_off 0 0 ticks) (sequenced tempo ticks (ps :: pss)).
Proof.
  unfold sequenced. right. cbn [flat_map]. apply in_or_app. left.
  unfold chord_events. apply in_or_app. right. now left.
Qed.

End Saving.

Section SequencerClaims.

Local Open Scope list_scope.

Lemma main_create_midi_ok (chords : list (list string)) (dur : float)
    (tempo ticks : Z) (pss : list (list Z)) :
  (0 <=? tempo) && (tempo <=? 16777215) = true ->
  ticks_per_chord 480 dur tempo = Ok ticks ->
  resolve_all chords = Some pss ->
  Main.create_midi chords dur tempo
  = Ok (mkMidiFile 480 [sequenced tempo ticks pss]).
Proof.
  intros Ht Hr Hc. unfold Main.create_midi.
  now rewrite (body_ok chords dur tempo Mido.new_MidiFile ticks pss Ht Hr Hc).
Qed.

Lemma chord_start_eq (tempo ticks : Z) (pss : list (list Z)) (i : nat) :
  (i <= List.length pss)%nat ->
  chord_start tempo ticks pss i = Z.of_nat i * ticks.
Proof.
  intros Hi. unfold chord_start.
  now rewrite elapsed_sequenced, length_firstn, Nat.min_l.
Qed.

Lemma resolve_all_app (a b : list (list string)) :
  forall pa pb, resolve_all a = Some pa -> resolve_all b = Some pb ->
                resolve_all (a ++ b) = Some (pa ++ pb).
Proof.
  induction a as [|chord a IH]; intros pa pb Ha Hb.
  - now injection Ha as <-.
  - destruct (resolve_all_cons _ _ _ Ha) as (ps & pss & -> & Hc & Hcs).
    cbn [app resolve_all]. now rewrite Hc, (IH pss pb Hcs Hb).
Qed.

End SequencerClaims.

Section SavedSequencer.

Local Open Scope list_scope.

(** [create_midi] of [main.py] to its end, when no time is negative. *)
Lemma main_saved_ok (chords : list (list string)) (dur : float)
    (tempo ticks : Z) (pss : list (list Z)) :
  (0 <=? tempo) && (tempo <=? 16777215) = true ->
  ticks_per_chord 480 dur tempo = Ok ticks ->
  resolve_all chords = Some pss ->
  0 <= ticks ->
  MainSaved.create_midi chords dur tempo
  = Ok (mkMidiFile 480 [sequenced tempo ticks pss]).
Proof.
  intros Ht Hr Hc Hpos. unfold MainSaved.create_midi.
  rewrite (main_create_midi_ok chords dur tempo ticks pss Ht Hr Hc).
  cbn [bind]. now apply save_sequenced.
Qed.

(** [create_midi] of [main.py] to its end, when a chord lasts a negative
    time. *)
Lemma main_saved_negative (chords : list (list string)) (dur : float)
    (tempo ticks : Z) (pss : list (list Z)) :
  (0 <=? tempo) && (tempo <=? 16777215) = true ->
  ticks_per_chord 480 dur tempo = Ok ticks ->
  resolve_all chords = Some pss ->
  ticks < 0 -> chords <> [] ->
  raises_ValueError (MainSaved.create_midi chords dur tempo).
Proof.
  intros Ht Hr Hc Hneg Hne. unfold MainSaved.create_midi.
  rewrite (main_create_midi_ok chords dur tempo ticks pss Ht Hr Hc).
  cbn [bind]. destruct pss as [|ps pss].
  - apply resolve_all_length in Hc. destruct chords; [congruence|].
    discriminate Hc.
  - now apply save_negative_marker.
Qed.

(** A tempo that does not fit three bytes: the message is refused, after
    the track has been appended. *)
Lemma body_tempo_refused (chords : list (list string)) (dur : float)
    (tempo : Z) (w : MidiFile) :
  (0 <=? tempo) && (tempo <=? 16777215) = false ->
  create_midi_body chords dur tempo w
  = (Raise (ValueError "attribute must be in range 0..16777215"),
     mkMidiFile (ticks_per_beat w) (tracks w ++ [[]])).
Proof.
  intros H. unfold create_midi_body, bindM, tracks_append_new, lift,
    Mido.new_set_tempo.
  now rewrite H.
Qed.

(** Whole seconds at the tempo of the two scripts. *)
Lemma whole_seconds_checked :
  forallb (fun s => match PyFloat.of_int s with
                    | Ok d => match ticks_per_chord 480 d 500000 with
                              | Ok t => t =? 960 * s
                              | Raise _ => false
                              end
                    | Raise _ => false
                    end)
    (map Z.of_nat (seq 0 (Z.to_nat 3601))) = true.
Proof. vm_compute. reflexivity. Qed.

Lemma whole_seconds (s : Z) :
  0 <= s <= 3600 ->
  exists d, PyFloat.of_int s = Ok d
            /\ ticks_per_chord 480 d 500000 = Ok (960 * s).
Proof.
  intros Hs. pose proof whole_seconds_checked as H.
  rewrite forallb_forall in H. specialize (H s).
  assert (Hin : In s (map Z.of_nat (seq 0 (Z.to_nat 3601)))).
  { replace s with (Z.of_nat (Z.to_nat s)) by lia.
    apply in_map, in_seq. lia. }
  specialize (H Hin).
  destruct (PyFloat.of_int s) as [d|]; [|discriminate H].
  exists d. split; [reflexivity|].
  destruct (ticks_per_chord 480 d 500000) as [t|]; [|discriminate H].
  apply Z.eqb_eq in H. now subst.
Qed.

End SavedSequencer.

(** C2: for a progression of [N] chords of [k] notes each, all resolving
    to MIDI notes, and a timing under which a chord lasts [ticks] pulses,
    both sequencers write the tempo event and then, chord after chord, the
    [k] note-ons, the duration marker and the [k] note-offs; within a chord
    that starts at [t] the note-ons are at [t] and the marker and note-offs
    at [t + ticks]; the track holds [N * 2k] pitched events and [N]
    markers; and chord [i + 1] starts [ticks] after chord [i]. *)
Theorem C2_sequencer_events (chords : list (list string)) (dur : float)
    (tempo : Z) (w : MidiFile) (ticks : Z) (pss : list (list Z)) (k : nat) :
  (0 <=? tempo) && (tempo <=? 16777215) = true ->
  ticks_per_chord (ticks_per_beat w) dur tempo = Ok ticks ->
  resolve_all chords = Some pss ->
  Forall (fun chord => List.length chord = k) chords ->
  let track := sequenced tempo ticks pss in
  let N := List.length chords in
  ChordGenerator.create_midi chords dur tempo w
  = (Ok tt, mkMidiFile (ticks_per_beat w) (tracks w ++ [track])%list)
  /\ (ticks_per_beat w = 480 ->
      Main.create_midi chords dur tempo = Ok (mkMidiFile 480 [track]))
  /\ track
     = MetaMessage_set_tempo tempo 0
       :: flat_map
            (fun ps =>
               map (fun p => Message note_on p 64 0) ps
               ++ [Message note_off 0 0 ticks]
               ++ map (fun p => Message note_off p 64 0) ps)%list pss
  /\ List.length pss = N
  /\ (forall (ps : list Z) (t : Z),
         In ps pss ->
         times_from t (chord_events ticks ps)
         = (repeat t k ++ (t + ticks) :: repeat (t + ticks) k)%list)
  /\ count_msgs is_pitched track = (N * (2 * k))%nat
  /\ count_msgs is_marker track = N
  /\ (forall i : nat,
         (i < N)%nat ->
         chord_start tempo ticks pss (S i)
         = chord_start tempo ticks pss i + ticks).
Proof.
  intros Ht Hr Hc Hk track N.
  pose proof (resolve_all_length _ _ Hc) as Hlen.
  pose proof (resolve_all_lengths k _ _ Hc Hk) as Hks.
  split; [exact (body_ok chords dur tempo w ticks pss Ht Hr Hc)|].
  split; [intros Hw; rewrite Hw in Hr;
          exact (main_create_midi_ok chords dur tempo ticks pss Ht Hr Hc)|].
  split; [reflexivity|].
  split; [exact Hlen|].
  split.
  { intros ps t Hin. rewrite times_from_chord.
    rewrite Forall_forall in Hks. now rewrite (Hks ps Hin). }
  split.
  { unfold track, sequenced, N.
    change (MetaMessage_set_tempo tempo 0 :: ?l)
      with ([MetaMessage_set_tempo tempo 0] ++ l)%list.
    rewrite count_msgs_app, (count_pitched_chords ticks k pss Hks), Hlen.
    reflexivity. }
  split.
  { unfold track, sequenced, N.
    change (MetaMessage_set_tempo tempo 0 :: ?l)
      with ([MetaMessage_set_tempo tempo 0] ++ l)%list.
    rewrite count_msgs_app, count_marker_chords, Hlen. reflexivity. }
  intros i Hi. unfold N in Hi. rewrite <- Hlen in Hi.
  rewrite !chord_start_eq by lia. lia.
Qed.

Lemma C2_sequencer_events_witness :
  (0 <=? 500000) && (500000 <=? 16777215) = true
  /\ ticks_per_chord (ticks_per_beat ChordGenerator.WORKING_MIDI) 1%float
       500000 = Ok 960
  /\ resolve_all [["C4"; "E4"; "G4"]; ["G4"; "B4"; "D5"]]
     = Some [[60; 64; 67]; [67; 71; 74]]
  /\ Forall (fun chord => List.length chord = 3%nat)
       [["C4"; "E4"; "G4"]; ["G4"; "B4"; "D5"]]
  /\ ChordGenerator.create_midi [["C4"; "E4"; "G4"]; ["G4"; "B4"; "D5"]]
       1%float 500000 ChordGenerator.WORKING_MIDI
     = (Ok tt,
        mkMidiFile 480
          [sequenced 500000 960 [[60; 64; 67]; [67; 71; 74]]]).
Proof.
  split; [reflexivity|]. split; [reflexivity|]. split; [reflexivity|].
  split; [repeat constructor|].
  exact (proj1 (C2_sequencer_events
                  [["C4"; "E4"; "G4"]; ["G4"; "B4"; "D5"]] 1%float 500000
                  ChordGenerator.WORKING_MIDI 960
                  [[60; 64; 67]; [67; 71; 74]] 3
                  eq_refl eq_refl eq_refl
                  ltac:(repeat constructor))).
Defined.

(** C4, as the specification states it, fails: with 480 pulses per beat,
    3.0 seconds and 450000 microseconds per beat the exact value
    480 * 3.0 * 1000000 / 450000 is 3200, with no remainder to truncate,
    and the code gives 3199, which both sequencers write into the track. *)
Lemma C4_counterexample_inexact :
  480 * 3 * 1000000 = 3200 * 450000
  /\ ticks_per_chord 480 3%float 450000 = Ok 3199
  /\ MainSaved.create_midi [["C4"]] 3%float 450000
     = Ok (mkMidiFile 480
             [[MetaMessage_set_tempo 450000 0; Message note_on 60 64 0;
               Message note_off 0 0 3199; Message note_off 60 64 0]])
  /\ ChordGenerator.create_midi [["C4"]] 3%float 450000
       ChordGenerator.WORKING_MIDI
     = (Ok tt,
        mkMidiFile 480
          [[MetaMessage_set_tempo 450000 0; Message note_on 60 64 0;
            Message note_off 0 0 3199; Message note_off 60 64 0]]).
Proof. repeat split; reflexivity. Qed.

(** C4, amended: the ticks of a chord are [int] of a binary64 number, the
    duration divided by the tempo over 1e6 and multiplied by the ticks per
    beat, each of the three operations rounded: its fraction is dropped
    toward zero, and it is this number that is truncated, not the exact
    quotient.  Every chord the sequencer writes lasts that many ticks:
    the marker of each chord carries them, and the track of [N] chords
    ends at [N] times that.  With 480 ticks per beat, 500000 microseconds
    per beat and 2.0 seconds a chord lasts 1920 ticks, and at that tempo a
    whole number of seconds up to an hour lasts 960 ticks a second; a
    product above 959.5 gives 959, not 960, and its opposite gives -959,
    not -960. *)
Theorem C4_ticks_float_truncation :
  (forall (tpb : Z) (dur : float) (tempo : Z) (t : Z),
      ticks_per_chord tpb dur tempo = Ok t ->
      exists tempo_f tpb_f,
        PyFloat.of_int tempo = Ok tempo_f
        /\ PyFloat.of_int tpb = Ok tpb_f
        /\ match Prim2SF
                   (PrimFloat.mul
                      (PrimFloat.div dur (PrimFloat.div tempo_f 1e6%float))
                      tpb_f) with
           | S754_zero _ => t = 0
           | S754_finite s m e => is_truncation s m e t
           | _ => False
           end)
  /\ (forall (chords : list (list string)) (dur : float) (tempo : Z)
             (w : MidiFile) (t : Z) (pss : list (list Z)),
         (0 <=? tempo) && (tempo <=? 16777215) = true ->
         ticks_per_chord (ticks_per_beat w) dur tempo = Ok t ->
         resolve_all chords = Some pss ->
         ChordGenerator.create_midi chords dur tempo w
         = (Ok tt,
            mkMidiFile (ticks_per_beat w)
              (tracks w ++ [sequenced tempo t pss])%list)
         /\ (ticks_per_beat w = 480 ->
             Main.create_midi chords dur tempo
             = Ok (mkMidiFile 480 [sequenced tempo t pss]))
         /\ Forall (fun m => is_marker m = true -> msg_time m = t)
              (sequenced tempo t pss)
         /\ count_msgs is_marker (sequenced tempo t pss)
            = List.length chords
         /\ elapsed (sequenced tempo t pss)
            = Z.of_nat (List.length chords) * t)
  /\ ticks_per_chord 480 2%float 500000 = Ok 1920
  /\ (forall s : Z,
         0 <= s <= 3600 ->
         exists d, PyFloat.of_int s = Ok d
                   /\ ticks_per_chord 480 d 500000 = Ok (960 * s))
  /\ (exists beats,
         beats_per_chord 1%float 500001 = Ok beats
         /\ PrimFloat.ltb 959.5%float (PrimFloat.mul beats 480%float) = true
         /\ ticks_per_chord 480 1%float 500001 = Ok 959)
  /\ ticks_per_chord 480 (-1)%float 500001 = Ok (-959).
Proof.
  split.
  { intros tpb dur tempo t H.
    destruct (ticks_per_chord_inv _ _ _ _ H)
      as (tf & spb & f & Htf & -> & _ & _ & Hf & Hi).
    exists tf, f. split; [exact Htf|]. split; [exact Hf|].
    now apply to_int_spec. }
  split.
  { intros chords dur tempo w t pss Ht H Hc.
    split; [exact (body_ok chords dur tempo w t pss Ht H Hc)|].
    split.
    { intros Hw. rewrite Hw in H.
      exact (main_create_midi_ok chords dur tempo t pss Ht H Hc). }
    split.
    { unfold sequenced. constructor; [intros Hm; discriminate Hm|].
      apply Forall_flat_map, Forall_forall. intros ps _.
      unfold chord_events. rewrite !Forall_app. repeat split.
      - apply Forall_map, Forall_forall. intros p _ Hm.
        destruct p; discriminate Hm.
      - now repeat constructor.
      - apply Forall_map, Forall_forall. intros p _ Hm.
        destruct p; discriminate Hm. }
    split.
    { unfold sequenced, count_msgs. cbn [filter is_marker].
      fold (count_msgs is_marker (flat_map (chord_events t) pss)).
      rewrite count_marker_chords. now apply resolve_all_length. }
    rewrite elapsed_sequenced. now rewrite (resolve_all_length chords pss Hc). }
  split; [reflexivity|].
  split; [exact whole_seconds|].
  split; [|reflexivity].
  eexists. split; [reflexivity|]. split; reflexivity.
Qed.

Lemma C4_ticks_float_truncation_witness :
  (0 <=? 500000) && (500000 <=? 16777215) = true
  /\ ticks_per_chord (ticks_per_beat ChordGenerator.WORKING_MIDI) 2%float
       500000 = Ok 1920
  /\ resolve_all [["C4"; "E4"; "G4"]; ["F4"; "A4"; "C5"]]
     = Some [[60; 64; 67]; [65; 69; 72]]
  /\ ChordGenerator.create_midi [["C4"; "E4"; "G4"]; ["F4"; "A4"; "C5"]]
       2%float 500000 ChordGenerator.WORKING_MIDI
     = (Ok tt,
        mkMidiFile 480
          [sequenced 500000 1920 [[60; 64; 67]; [65; 69; 72]]])
  /\ elapsed (sequenced 500000 1920 [[60; 64; 67]; [65; 69; 72]]) = 3840.
Proof.
  split; [reflexivity|]. split; [reflexivity|]. split; [reflexivity|].
  pose proof (proj1 (proj2 C4_ticks_float_truncation)
                [["C4"; "E4"; "G4"]; ["F4"; "A4"; "C5"]] 2%float 500000
                ChordGenerator.WORKING_MIDI 1920
                [[60; 64; 67]; [65; 69; 72]] eq_refl eq_refl eq_refl)
    as (Hcg & _ & _ & _ & Hel).
  split; [exact Hcg|exact Hel].
Defined.

(** C5, as the specification states it, fails in [chord_generator.py]: the
    track is appended to [WORKING_MIDI] before it is filled, so after the
    failure on H4 the shared file holds the events of the chord before it. *)
Lemma C5_counterexample_partial_track :
  ChordGenerator.create_midi [["C4"]; ["E4"; "H4"]] 1%float 500000
    ChordGenerator.WORKING_MIDI
  = (Raise (ValueError "Invalid note: H4"),
     mkMidiFile 480
       [[MetaMessage_set_tempo 500000 0; Message note_on 60 64 0;
         Message note_off 0 0 960; Message note_off 60 64 0;
         Message note_on 64 64 0]])
  /\ tracks (snd (ChordGenerator.create_midi [["C4"]; ["E4"; "H4"]] 1%float
                    500000 ChordGenerator.WORKING_MIDI))
     <> tracks ChordGenerator.WORKING_MIDI.
Proof. split; [reflexivity|discriminate]. Qed.

(** C5, amended: when the first note that fails to resolve raises [e],
    both sequencers raise [e] at once and return no event list;
    [main.py] hands nothing to [save]; [chord_generator.py] has by then
    appended the track to [WORKING_MIDI], which keeps the tempo event, the
    events of the chords before the failure and the note-ons written before
    the failing note. *)
Theorem C5_failing_note (pre post : list (list string)) (ns1 ns2 : list string)
    (bad : string) (e : exn) (dur : float) (tempo : Z) (w : MidiFile)
    (ticks : Z) (pss : list (list Z)) (ps1 : list Z) :
  (0 <=? tempo) && (tempo <=? 16777215) = true ->
  ticks_per_chord (ticks_per_beat w) dur tempo = Ok ticks ->
  resolve_all pre = Some pss -> resolve_chord ns1 = Some ps1 ->
  note_to_midi bad = Raise e ->
  ChordGenerator.create_midi (pre ++ (ns1 ++ bad :: ns2) :: post)%list
    dur tempo w
  = (Raise e,
     mkMidiFile (ticks_per_beat w)
       (tracks w ++ [sequenced tempo ticks pss
                     ++ map (fun p => Message note_on p 64 0) ps1])%list)
  /\ (ticks_per_beat w = 480 ->
      Main.create_midi (pre ++ (ns1 ++ bad :: ns2) :: post)%list dur tempo
      = Raise e).
Proof.
  intros Ht Hr Hc H1 Hbad. split.
  - exact (body_raise pre post ns1 ns2 bad e dur tempo w ticks pss ps1
             Ht Hr Hc H1 Hbad).
  - intros Hw. rewrite Hw in Hr. unfold Main.create_midi.
    now rewrite (body_raise pre post ns1 ns2 bad e dur tempo
                   Mido.new_MidiFile ticks pss ps1 Ht Hr Hc H1 Hbad).
Qed.

Lemma C5_failing_note_witness :
  (0 <=? 500000) && (500000 <=? 16777215) = true
  /\ ticks_per_chord (ticks_per_beat ChordGenerator.WORKING_MIDI) 2%float
       500000 = Ok 1920
  /\ resolve_all [["C4"; "G4"]] = Some [[60; 67]]
  /\ resolve_chord ["E4"] = Some [64]
  /\ note_to_midi "Cx" = Raise (ValueError "Invalid octave in note: Cx")
  /\ Main.create_midi [["C4"; "G4"]; ["E4"; "Cx"; "G4"]; ["C4"]] 2%float
       500000
     = Raise (ValueError "Invalid octave in note: Cx").
Proof.
  repeat (split; [reflexivity|]).
  exact (proj2 (C5_failing_note [["C4"; "G4"]] [["C4"]] ["E4"] ["G4"] "Cx"
                  (ValueError "Invalid octave in note: Cx") 2%float 500000
                  ChordGenerator.WORKING_MIDI 1920 [[60; 67]] [64]
                  eq_refl eq_refl eq_refl eq_refl eq_refl) eq_refl).
Defined.

(** C6: under a timing that lasts [ticks] pulses per chord, a chord without
    notes is written as its duration marker alone, which takes [ticks]
    pulses and sounds nothing; an empty progression writes no event after
    the tempo; and with a duration of 0, under any timing that works for
    some duration, nothing is raised, no chord is dropped, and the ticks are
    0, so that the note-ons, the marker and the note-offs of a chord all
    fall on the chord's start. *)
Theorem C6_edge_cases (dur : float) (tempo : Z) (w : MidiFile) (ticks : Z) :
  (0 <=? tempo) && (tempo <=? 16777215) = true ->
  ticks_per_chord (ticks_per_beat w) dur tempo = Ok ticks ->
  (forall (pre post : list (list string)) (pa pb : list (list Z)),
      resolve_all pre = Some pa -> resolve_all post = Some pb ->
      ChordGenerator.create_midi (pre ++ [] :: post)%list dur tempo w
      = (Ok tt,
         mkMidiFile (ticks_per_beat w)
           (tracks w ++ [sequenced tempo ticks pa
                         ++ Message note_off 0 0 ticks
                            :: flat_map (chord_events ticks) pb])%list))
  /\ (chord_events ticks [] = [Message note_off 0 0 ticks]
      /\ elapsed (chord_events ticks []) = ticks
      /\ count_msgs is_pitched (chord_events ticks []) = 0%nat
      /\ count_msgs is_marker (chord_events ticks []) = 1%nat)
  /\ (ChordGenerator.create_midi [] dur tempo w
      = (Ok tt,
         mkMidiFile (ticks_per_beat w)
           (tracks w ++ [[MetaMessage_set_tempo tempo 0]])%list)
      /\ (ticks_per_beat w = 480 ->
          Main.create_midi [] dur tempo
          = Ok (mkMidiFile 480 [[MetaMessage_set_tempo tempo 0]])))
  /\ (forall (chords : list (list string)) (pss : list (list Z)),
         resolve_all chords = Some pss ->
         ticks_per_chord (ticks_per_beat w) 0%float tempo = Ok 0
         /\ ChordGenerator.create_midi chords 0%float tempo w
            = (Ok tt,
               mkMidiFile (ticks_per_beat w)
                 (tracks w ++ [sequenced tempo 0 pss])%list)
         /\ (ticks_per_beat w = 480 ->
             Main.create_midi chords 0%float tempo
             = Ok (mkMidiFile 480 [sequenced tempo 0 pss]))
         /\ List.length pss = List.length chords
         /\ count_msgs is_marker (sequenced tempo 0 pss) = List.length chords
         /\ (forall (ps : list Z) (t : Z),
                times_from t (chord_events 0 ps)
                = repeat t (List.length ps + 1 + List.length ps)%nat)).
Proof.
  intros Ht Hr. split; [|split; [|split]].
  - intros pre post pa pb Ha Hb.
    assert (Hc : resolve_all (pre ++ [] :: post)%list
                 = Some (pa ++ [] :: pb)%list).
    { apply resolve_all_app; [exact Ha|]. simpl. now rewrite Hb. }
    unfold ChordGenerator.create_midi.
    rewrite (body_ok _ dur tempo w ticks _ Ht Hr Hc).
    unfold sequenced. rewrite flat_map_app. reflexivity.
  - repeat split. apply elapsed_chord.
  - split.
    + exact (body_ok [] dur tempo w ticks [] Ht Hr eq_refl).
    + intros Hw. rewrite Hw in Hr.
      exact (main_create_midi_ok [] dur tempo ticks [] Ht Hr eq_refl).
  - intros chords pss Hc.
    pose proof (ticks_zero_duration _ _ _ _ Hr) as H0.
    split; [exact H0|].
    split; [exact (body_ok chords 0%float tempo w 0 pss Ht H0 Hc)|].
    split.
    { intros Hw. rewrite Hw in H0.
      exact (main_create_midi_ok chords 0%float tempo 0 pss Ht H0 Hc). }
    split; [exact (resolve_all_length _ _ Hc)|].
    split.
    { unfold sequenced.
      change (MetaMessage_set_tempo tempo 0 :: ?l)
        with ([MetaMessage_set_tempo tempo 0] ++ l)%list.
      rewrite count_msgs_app, count_marker_chords.
      now rewrite (resolve_all_length _ _ Hc). }
    intros ps t. rewrite times_from_chord, Z.add_0_r.
    rewrite !repeat_app, <- app_assoc. reflexivity.
Qed.

Lemma C6_edge_cases_witness :
  (0 <=? 500000) && (500000 <=? 16777215) = true
  /\ ticks_per_chord (ticks_per_beat ChordGenerator.WORKING_MIDI) 2%float
       500000 = Ok 1920
  /\ ChordGenerator.create_midi [] 2%float 500000 ChordGenerator.WORKING_MIDI
     = (Ok tt, mkMidiFile 480 [[MetaMessage_set_tempo 500000 0]]).
Proof.
  split; [reflexivity|]. split; [reflexivity|].
  exact (proj1 (proj1 (proj2 (proj2
           (C6_edge_cases 2%float 500000 ChordGenerator.WORKING_MIDI 1920
              eq_refl eq_refl))))).
Defined.

(** C8, as the specification states it, fails: the code has no check of
    its timing.  A duration of 0 is sequenced and saved like any other, and
    [create_midi] of [chord_generator.py] returns from a negative one,
    with markers that last a negative time. *)
Lemma C8_counterexample_accepted_durations :
  MainSaved.create_midi [["C4"]] 0%float 500000
  = Ok (mkMidiFile 480
          [[MetaMessage_set_tempo 500000 0; Message note_on 60 64 0;
            Message note_off 0 0 0; Message note_off 60 64 0]])
  /\ ChordGenerator.create_midi [["C4"]] 0%float 500000
       ChordGenerator.WORKING_MIDI
     = (Ok tt,
        mkMidiFile 480
          [[MetaMessage_set_tempo 500000 0; Message note_on 60 64 0;
            Message note_off 0 0 0; Message note_off 60 64 0]])
  /\ ChordGenerator.create_midi [["C4"]] (-2)%float 500000
       ChordGenerator.WORKING_MIDI
     = (Ok tt,
        mkMidiFile 480
          [[MetaMessage_set_tempo 500000 0; Message note_on 60 64 0;
            Message note_off 0 0 (-1920); Message note_off 60 64 0]]).
Proof. repeat split; reflexivity. Qed.

(** C8, amended: what a timing out of range does.  A tempo of 0 makes
    both [create_midi] raise [ZeroDivisionError], and a tempo below 0
    makes them raise the [ValueError] of the tempo message; in
    [chord_generator.py] the track has by then been appended to
    [WORKING_MIDI], with the tempo message when the tempo is 0.  A duration
    of 0 is accepted by both: under a timing that works for some duration
    every chord lasts 0 ticks, and [main.py] saves the file.  A negative
    duration, the opposite of one that gives [t > 0] ticks, gives [- t]
    ticks: [create_midi] of [chord_generator.py] returns, and the file it
    leaves cannot be saved once it has a chord; [create_midi] of [main.py]
    raises [ValueError] in [mid.save] when there is a chord.  The resolution
    is the 480 of [MidiFile()], which the code never sets. *)
Theorem C8_timing_failures :
  (forall (chords : list (list string)) (dur : float) (w : MidiFile),
      ChordGenerator.create_midi chords dur 0 w
      = (Raise (ZeroDivisionError "float division by zero"),
         mkMidiFile (ticks_per_beat w)
           (tracks w ++ [[MetaMessage_set_tempo 0 0]])%list)
      /\ MainSaved.create_midi chords dur 0
         = Raise (ZeroDivisionError "float division by zero"))
  /\ (forall (chords : list (list string)) (dur : float) (tempo : Z)
             (w : MidiFile),
         tempo < 0 ->
         exists msg,
           ChordGenerator.create_midi chords dur tempo w
           = (Raise (ValueError msg),
              mkMidiFile (ticks_per_beat w) (tracks w ++ [[]])%list)
           /\ MainSaved.create_midi chords dur tempo
              = Raise (ValueError msg))
  /\ (forall (chords : list (list string)) (tempo : Z) (d0 : float) (t0 : Z)
             (pss : list (list Z)) (w : MidiFile),
         (0 <=? tempo) && (tempo <=? 16777215) = true ->
         ticks_per_chord (ticks_per_beat w) d0 tempo = Ok t0 ->
         resolve_all chords = Some pss ->
         ChordGenerator.create_midi chords 0%float tempo w
         = (Ok tt,
            mkMidiFile (ticks_per_beat w)
              (tracks w ++ [sequenced tempo 0 pss])%list)
         /\ (ticks_per_beat w = 480 ->
             MainSaved.create_midi chords 0%float tempo
             = Ok (mkMidiFile 480 [sequenced tempo 0 pss])))
  /\ (forall (chords : list (list string)) (tempo : Z) (d : float) (t : Z)
             (pss : list (list Z)) (w : MidiFile),
         (0 <=? tempo) && (tempo <=? 16777215) = true ->
         ticks_per_chord (ticks_per_beat w) d tempo = Ok t ->
         0 < t ->
         resolve_all chords = Some pss ->
         ChordGenerator.create_midi chords (PrimFloat.opp d) tempo w
         = (Ok tt,
            mkMidiFile (ticks_per_beat w)
              (tracks w ++ [sequenced tempo (- t) pss])%list)
         /\ (chords <> [] ->
             raises_ValueError
               (MidoFile.save
                  (mkMidiFile (ticks_per_beat w)
                     (tracks w ++ [sequenced tempo (- t) pss])%list)))
         /\ (ticks_per_beat w = 480 -> chords <> [] ->
             raises_ValueError
               (MainSaved.create_midi chords (PrimFloat.opp d) tempo))
         /\ (ticks_per_beat w = 480 -> chords = [] ->
             MainSaved.create_midi chords (PrimFloat.opp d) tempo
             = Ok (mkMidiFile 480 [[MetaMessage_set_tempo tempo 0]])))
  /\ ticks_per_beat Mido.new_MidiFile = 480
  /\ ticks_per_beat ChordGenerator.WORKING_MIDI = 480.
Proof.
  split; [|split; [|split; [|split; [|split; reflexivity]]]].
  - intros chords dur w. split.
    + exact (body_tempo_zero chords dur w).
    + unfold MainSaved.create_midi, Main.create_midi.
      now rewrite body_tempo_zero.
  - intros chords dur tempo w Hneg.
    assert (H : (0 <=? tempo) && (tempo <=? 16777215) = false).
    { apply andb_false_iff. left. apply Z.leb_gt. exact Hneg. }
    eexists. split.
    + exact (body_tempo_refused chords dur tempo w H).
    + unfold MainSaved.create_midi, Main.create_midi.
      now rewrite (body_tempo_refused chords dur tempo Mido.new_MidiFile H).
  - intros chords tempo d0 t0 pss w Ht H Hc.
    pose proof (ticks_zero_duration _ _ _ _ H) as H0. split.
    + exact (body_ok chords 0%float tempo w 0 pss Ht H0 Hc).
    + intros Hw. rewrite Hw in H0.
      exact (main_saved_ok chords 0%float tempo 0 pss Ht H0 Hc (Z.le_refl 0)).
  - intros chords tempo d t pss w Ht H Hpos Hc.
    pose proof (ticks_negated_duration _ _ _ _ H) as Hn.
    split; [exact (body_ok chords _ tempo w (- t) pss Ht Hn Hc)|].
    split; [|split].
    + intros Hne. destruct pss as [|ps pss].
      { apply resolve_all_length in Hc. destruct chords; [congruence|].
        discriminate Hc. }
      apply (save_raises _ (sequenced tempo (- t) (ps :: pss))
               (Message note_off 0 0 (- t))).
      * cbn [tracks]. apply in_or_app. right. now left.
      * apply marker_in_sequenced.
      * cbn [msg_time]. lia.
    + intros Hw Hne. rewrite Hw in Hn.
      apply (main_saved_negative chords _ tempo (- t) pss Ht Hn Hc);
        [lia|exact Hne].
    + intros Hw ->. rewrite Hw in Hn. injection Hc as <-.
      unfold MainSaved.create_midi.
      rewrite (main_create_midi_ok [] _ tempo (- t) [] Ht Hn eq_refl).
      reflexivity.
Qed.

Lemma C8_timing_failures_witness :
  (0 <=? 500000) && (500000 <=? 16777215) = true
  /\ ticks_per_chord (ticks_per_beat ChordGenerator.WORKING_MIDI) 2%float
       500000 = Ok 1920
  /\ 0 < 1920
  /\ resolve_all [["C4"]] = Some [[60]]
  /\ ChordGenerator.create_midi [["C4"]] (PrimFloat.opp 2%float) 500000
       ChordGenerator.WORKING_MIDI
     = (Ok tt, mkMidiFile 480 [sequenced 500000 (- 1920) [[60]]])
  /\ raises_ValueError
       (MainSaved.create_midi [["C4"]] (PrimFloat.opp 2%float) 500000).
Proof.
  split; [reflexivity|]. split; [reflexivity|]. split; [reflexivity|].
  split; [reflexivity|].
  pose proof (proj1 (proj2 (proj2 (proj2 C8_timing_failures)))
                [["C4"]] 500000 2%float 1920 [[60]]
                ChordGenerator.WORKING_MIDI eq_refl eq_refl eq_refl eq_refl)
    as (Hcg & _ & Hmain & _).
  split; [exact Hcg|].
  apply Hmain; [reflexivity|discriminate].
Defined.

(** C9, as the specification states it, fails in [chord_generator.py]:
    a call changes [WORKING_MIDI], and the track of one call is still there
    for the next, which adds its own. *)
Lemma C9_counterexample_shared_tracks :
  snd (ChordGenerator.create_midi [["C4"]] 1%float 500000
         ChordGenerator.WORKING_MIDI)
  <> ChordGenerator.WORKING_MIDI
  /\ (ChordGenerator.create_midi [["C4"]] 1%float 500000 ;;;
      ChordGenerator.create_midi [["E4"]] 1%float 500000)
       ChordGenerator.WORKING_MIDI
     = (Ok tt,
        mkMidiFile 480
          [[MetaMessage_set_tempo 500000 0; Message note_on 60 64 0;
            Message note_off 0 0 960; Message note_off 60 64 0];
           [MetaMessage_set_tempo 500000 0; Message note_on 64 64 0;
            Message note_off 0 0 960; Message note_off 64 64 0]]).
Proof. split; [discriminate|reflexivity]. Qed.

(** C9, amended: the track a call writes is fixed by the progression, the
    duration, the tempo and the ticks per beat, whatever tracks the file
    already holds; [main.py] returns it in a file of its own;
    [chord_generator.py] appends it to the tracks of [WORKING_MIDI], leaving
    the earlier ones as they were, so that two calls in a row leave two
    tracks more. *)
Theorem C9_deterministic_track (chords : list (list string)) (dur : float)
    (tempo : Z) (w : MidiFile) (ticks : Z) (pss : list (list Z)) :
  (0 <=? tempo) && (tempo <=? 16777215) = true ->
  ticks_per_chord (ticks_per_beat w) dur tempo = Ok ticks ->
  resolve_all chords = Some pss ->
  let track := sequenced tempo ticks pss in
  (forall w' : MidiFile,
      ticks_per_beat w' = ticks_per_beat w ->
      ChordGenerator.create_midi chords dur tempo w'
      = (Ok tt, mkMidiFile (ticks_per_beat w') (tracks w' ++ [track])%list))
  /\ (ChordGenerator.create_midi chords dur tempo ;;;
      ChordGenerator.create_midi chords dur tempo) w
     = (Ok tt,
        mkMidiFile (ticks_per_beat w) (tracks w ++ [track; track])%list)
  /\ (ticks_per_beat w = 480 ->
      Main.create_midi chords dur tempo = Ok (mkMidiFile 480 [track])).
Proof.
  intros Ht Hr Hc track.
  assert (Hany : forall w' : MidiFile,
             ticks_per_beat w' = ticks_per_beat w ->
             ChordGenerator.create_midi chords dur tempo w'
             = (Ok tt,
                mkMidiFile (ticks_per_beat w') (tracks w' ++ [track])%list)).
  { intros w' Hw. rewrite <- Hw in Hr.
    exact (body_ok chords dur tempo w' ticks pss Ht Hr Hc). }
  split; [exact Hany|]. split.
  - rewrite (bindM_ok _ _ _ _ tt (Hany w eq_refl)). cbv beta.
    rewrite (Hany (mkMidiFile (ticks_per_beat w) (tracks w ++ [track])%list)
               eq_refl).
    cbn [ticks_per_beat tracks].
    now rewrite <- app_assoc.
  - intros Hw. rewrite Hw in Hr.
    exact (main_create_midi_ok chords dur tempo ticks pss Ht Hr Hc).
Qed.

Lemma C9_deterministic_track_witness :
  (0 <=? 500000) && (500000 <=? 16777215) = true
  /\ ticks_per_chord (ticks_per_beat ChordGenerator.WORKING_MIDI) 1%float
       500000 = Ok 960
  /\ resolve_all [["C4"]] = Some [[60]]
  /\ (ChordGenerator.create_midi [["C4"]] 1%float 500000 ;;;
      ChordGenerator.create_midi [["C4"]] 1%float 500000)
       ChordGenerator.WORKING_MIDI
     = (Ok tt,
        mkMidiFile 480
          [sequenced 500000 960 [[60]]; sequenced 500000 960 [[60]]]).
Proof.
  repeat (split; [reflexivity|]).
  exact (proj1 (proj2 (C9_deterministic_track [["C4"]] 1%float 500000
                         ChordGenerator.WORKING_MIDI 960 [[60]]
                         eq_refl eq_refl eq_refl))).
Defined.

(** * Further properties of the code *)

(** ** The resolver, read backwards *)

Section ResolverShape.

Ltac find_letter :=
  first [ exists true, LC; repeat split; reflexivity
        | exists true, LD; repeat split; reflexivity
        | exists true, LE; repeat split; reflexivity
        | exists true, LF; repeat split; reflexivity
        | exists true, LG; repeat split; reflexivity
        | exists true, LA; repeat split; reflexivity
        | exists true, LB; repeat split; reflexivity
        | exists false, LC; repeat split; reflexivity
        | exists false, LD; repeat split; reflexivity
        | exists false, LE; repeat split; reflexivity
        | exists false, LF; repeat split; reflexivity
        | exists false, LG; repeat split; reflexivity
        | exists false, LA; repeat split; reflexivity
        | exists false, LB; repeat split; reflexivity ].

(** A first character under a key of the table is one of the letters. *)
Lemma natural_key (c : ascii) (n : Z) :
  Py.dict_get note_base (str1 (Py.upper_char c)) = Some n ->
  exists up l, c = letter_char up l /\ n = natural_offset l.
Proof.
  destruct c as [[] [] [] [] [] [] [] []]; intros H; cbv in H;
    try discriminate H; injection H as <-; find_letter.
Qed.

Lemma sharp_key (c : ascii) (n : Z) :
  Py.dict_get note_base (str1 (Py.upper_char c) ++ "#") = Some n ->
  exists up l, c = letter_char up l /\ in_note_base l Sharp = true
               /\ n = natural_offset l + 1.
Proof.
  destruct c as [[] [] [] [] [] [] [] []]; intros H; cbv in H;
    try discriminate H; injection H as <-; find_letter.
Qed.

(** The split of a stripped note of two characters or more. *)
Lemma split_accidental_two (c0 c1 : ascii) (rest : string) :
  (exists a, (a = Sharp \/ a = Flat)
             /\ rest <> ""
             /\ c1 = char_at 0 (accidental_str a)
             /\ split_accidental (String c0 (String c1 rest))
                = (accidental_str a, rest))
  \/ split_accidental (String c0 (String c1 rest)) = ("", String c1 rest).
Proof.
  unfold split_accidental.
  change (char_at 1 (String c0 (String c1 rest))) with c1.
  change (Py.slice_from 2 (String c0 (String c1 rest))) with rest.
  change (Py.slice_from 1 (String c0 (String c1 rest)))
    with (String c1 rest).
  destruct rest as [|c2 rest].
  - right. reflexivity.
  - rewrite len_ge3. cbn [andb].
    destruct (Ascii.eqb_spec c1 "#") as [->|_].
    + left. exists Sharp. repeat split; auto. discriminate.
    + destruct (Ascii.eqb_spec c1 "b") as [->|_].
      * left. exists Flat. repeat split; auto. discriminate.
      * right. reflexivity.
Qed.

Lemma len_lt2_cases (s : string) :
  (Py.len s <? 2) = false -> exists c0 c1 rest, s = String c0 (String c1 rest).
Proof.
  destruct s as [|c0 [|c1 rest]]; intros H; try discriminate H; eauto.
Qed.

End ResolverShape.

(** X1: the converse of the resolver's formula.  Whatever resolves is,
    once stripped, a letter A..G in either case, an optional sharp or flat
    that the table has, and a text [int] accepts; and the pitch is the
    formula's. *)
Theorem resolved_is_token (t : string) (p : Z) :
  note_to_midi t = Ok p ->
  exists up l a os o,
    Py.strip t = token up l a os
    /\ Py.int os = Some o
    /\ in_note_base l a = true
    /\ p = 12 * (o + 1) + semitone_offset l a.
Proof.
  unfold note_to_midi.
  destruct (Py.len (Py.strip t) <? 2) eqn:Hlen; [discriminate|].
  destruct (len_lt2_cases _ Hlen) as (c0 & c1 & rest & Hs). rewrite Hs.
  change (char_at 0 (String c0 (String c1 rest))) with c0.
  destruct (split_accidental_two c0 c1 rest)
    as [(a & Ha & Hne & Hc1 & ->)| ->].
  - destruct (Py.int rest) as [o|] eqn:Hi; [|discriminate].
    destruct Ha as [-> | ->]; cbn [accidental_str] in *.
    + change (String.eqb "#" "b") with false. cbv iota.
      destruct (Py.dict_get note_base (str1 (Py.upper_char c0) ++ "#"))
        as [n|] eqn:Hk; [|discriminate].
      cbn [bind]. intros [= <-].
      destruct (sharp_key c0 n Hk) as (up & l & -> & Hb & ->).
      exists up, l, Sharp, rest, o. subst c1. repeat split; auto.
    + change (String.eqb "b" "b") with true. cbv iota.
      destruct (Py.dict_get note_base (str1 (Py.upper_char c0)))
        as [n|] eqn:Hk; [|discriminate].
      cbn [bind]. intros [= <-].
      destruct (natural_key c0 n Hk) as (up & l & -> & ->).
      exists up, l, Flat, rest, o. subst c1. repeat split; auto.
  - destruct (Py.int (String c1 rest)) as [o|] eqn:Hi; [|discriminate].
    change (String.eqb "" "b") with false. cbv iota.
    change (str1 (Py.upper_char c0) ++ "") with (str1 (Py.upper_char c0)).
    destruct (Py.dict_get note_base (str1 (Py.upper_char c0)))
      as [n|] eqn:Hk; [|discriminate].
    cbn [bind]. intros [= <-].
    destruct (natural_key c0 n Hk) as (up & l & -> & ->).
    exists up, l, Natural, (String c1 rest), o. repeat split; auto.
Qed.

Lemma resolved_is_token_witness :
  note_to_midi " bb3 " = Ok 58
  /\ exists up l a os o,
       Py.strip " bb3 " = token up l a os
       /\ Py.int os = Some o
       /\ in_note_base l a = true
       /\ 58 = 12 * (o + 1) + semitone_offset l a.
Proof.
  split; [reflexivity|].
  exact (resolved_is_token " bb3 " 58 eq_refl).
Defined.

Lemma semitone_offset_range (l : note_letter) (a : accidental) :
  in_note_base l a = true -> 0 <= semitone_offset l a <= 11.
Proof. destruct l, a; intros H; try discriminate H; cbv; split; discriminate. Qed.

(** X2: the pitch of a note gives back its octave and its place in the
    octave: [p // 12 - 1] is the octave [int] read, negative ones too, and
    [p % 12] is the semitone offset, between 0 and 11. *)
Theorem pitch_decodes (t : string) (p : Z) :
  note_to_midi t = Ok p ->
  exists up l a os o,
    Py.strip t = token up l a os
    /\ Py.int os = Some o
    /\ p / 12 - 1 = o
    /\ p mod 12 = semitone_offset l a
    /\ 0 <= p mod 12 <= 11.
Proof.
  intros H.
  destruct (resolved_is_token t p H) as (up & l & a & os & o & Hs & Hi & Hb & ->).
  pose proof (semitone_offset_range l a Hb) as Hr.
  exists up, l, a, os, o. split; [exact Hs|]. split; [exact Hi|].
  assert (Hd : (12 * (o + 1) + semitone_offset l a) / 12 = o + 1).
  { symmetry.
    apply (Z.div_unique _ 12 (o + 1) (semitone_offset l a)); lia. }
  assert (Hm : (12 * (o + 1) + semitone_offset l a) mod 12
               = semitone_offset l a).
  { symmetry.
    apply (Z.mod_unique _ 12 (o + 1) (semitone_offset l a)); lia. }
  rewrite Hd, Hm. repeat split; lia.
Qed.

Lemma pitch_decodes_witness :
  note_to_midi "Bb-2" = Ok (-2)
  /\ exists up l a os o,
       Py.strip "Bb-2" = token up l a os
       /\ Py.int os = Some o
       /\ (-2) / 12 - 1 = o
       /\ (-2) mod 12 = semitone_offset l a
       /\ 0 <= (-2) mod 12 <= 11.
Proof.
  split; [reflexivity|].
  exact (pitch_decodes "Bb-2" (-2) eq_refl).
Defined.

(** X3: one octave up is twelve semitones up, for every letter and
    accidental of the table and every octave, negative ones too; and the
    two sharps the table lacks fail in every octave. *)
Theorem octave_step (up : bool) (l : note_letter) (a : accidental) (o : Z) :
  (in_note_base l a = true ->
   exists p,
     note_to_midi (token up l a (Py.str o)) = Ok p
     /\ note_to_midi (token up l a (Py.str (o + 1))) = Ok (p + 12))
  /\ (in_note_base l a = false ->
      raises_ValueError (note_to_midi (token up l a (Py.str o)))).
Proof.
  rewrite !note_to_midi_str. split; intros ->.
  - eexists. split; [reflexivity|]. f_equal. lia.
  - unfold raises_ValueError. eauto.
Qed.

Lemma octave_step_witness :
  in_note_base LF Sharp = true
  /\ in_note_base LB Sharp = false
  /\ (exists p,
         note_to_midi (token false LF Sharp (Py.str (-1))) = Ok p
         /\ note_to_midi (token false LF Sharp (Py.str (-1 + 1)))
            = Ok (p + 12))
  /\ raises_ValueError (note_to_midi (token true LB Sharp (Py.str 3))).
Proof.
  split; [reflexivity|]. split; [reflexivity|]. split.
  - exact (proj1 (octave_step false LF Sharp (-1)) eq_refl).
  - exact (proj2 (octave_step true LB Sharp 3) eq_refl).
Defined.

Section Padding.

Lemma lstrip_blank (pad : string) : blank pad = true -> Py.lstrip pad = "".
Proof.
  induction pad as [|c pad IH]; simpl; intros H; [reflexivity|].
  apply andb_true_iff in H as [Hc Hpad]. rewrite Hc. auto.
Qed.

Lemma strip_app_blank (t pad : string) :
  blank pad = true -> Py.strip (t ++ pad) = Py.strip t.
Proof.
  intros H. unfold Py.strip. induction t as [|c t IH].
  - simpl String.append. now rewrite (lstrip_blank pad H).
  - simpl String.append. simpl Py.lstrip. destruct (Py.isspace c).
    + exact IH.
    + change (String c (t ++ pad)) with (String c t ++ pad).
      now apply rstrip_app_blank.
Qed.

Lemma strip_blank_app (pad t : string) :
  blank pad = true -> Py.strip (pad ++ t) = Py.strip t.
Proof. intros H. unfold Py.strip. now rewrite lstrip_blank_app. Qed.

End Padding.

(** X4: blanks before and after a note never matter, whether it resolves
    or not: the result, error message included, is that of the bare
    text. *)
Theorem padding_ignored (pad1 pad2 t : string) :
  blank pad1 = true -> blank pad2 = true ->
  note_to_midi (pad1 ++ t ++ pad2) = note_to_midi t.
Proof.
  intros H1 H2. unfold note_to_midi.
  now rewrite (strip_blank_app pad1 _ H1), (strip_app_blank t pad2 H2).
Qed.

Lemma padding_ignored_witness :
  blank "  " = true /\ blank " " = true
  /\ note_to_midi ("  " ++ "H4" ++ " ") = note_to_midi "H4".
Proof.
  split; [reflexivity|]. split; [reflexivity|].
  exact (padding_ignored "  " " " "H4" eq_refl eq_refl).
Defined.

(** X5: which notes are MIDI notes.  A note of the table resolves into
    0..127 exactly when its octave is between -1 and 8, or is 9 and the note
    is no higher than G. *)
Theorem midi_range (up : bool) (l : note_letter) (a : accidental) (o : Z) :
  in_note_base l a = true ->
  exists p,
    note_to_midi (token up l a (Py.str o)) = Ok p
    /\ (0 <= p <= 127
        <-> -1 <= o <= 8 \/ (o = 9 /\ semitone_offset l a <= 7)).
Proof.
  intros Hb. rewrite note_to_midi_str, Hb.
  eexists. split; [reflexivity|].
  pose proof (semitone_offset_range l a Hb). lia.
Qed.

Lemma midi_range_witness :
  in_note_base LG Natural = true
  /\ exists p,
       note_to_midi (token true LG Natural (Py.str 9)) = Ok p
       /\ (0 <= p <= 127
           <-> -1 <= 9 <= 8 \/ (9 = 9 /\ semitone_offset LG Natural <= 7)).
Proof.
  split; [reflexivity|].
  exact (midi_range true LG Natural 9 eq_refl).
Defined.

(** ** The sequencer on every input *)

Section Frame.

Local Open Scope list_scope.

Variables (tpb : Z) (ts : list MidiTrack).

(** The file with its earlier tracks as they were and one track more. *)
Local Abbreviation framed w :=
  (exists tr : MidiTrack, w = mkMidiFile tpb (ts ++ [tr])).

Local Abbreviation keeps c := (forall w, framed w -> framed (snd (c w))).

Lemma keeps_lift {A : Type} (r : result A) : keeps (lift r).
Proof. intros w H. exact H. Qed.

Lemma keeps_bind {A B : Type} (c : M A) (k : A -> M B) :
  keeps c -> (forall a, keeps (k a)) -> keeps (bindM c k).
Proof.
  intros Hc Hk w Hw. unfold bindM.
  specialize (Hc w Hw). destruct (c w) as [[a|e] w']; cbn [snd] in *.
  - now apply Hk.
  - exact Hc.
Qed.

Lemma keeps_track_append (m : msg) : keeps (track_append (List.length ts) m).
Proof.
  intros w [tr ->]. rewrite track_append_last. cbn [snd]. eauto.
Qed.

Lemma keeps_for_each {A : Type} (body : A -> M unit) (xs : list A) :
  (forall x, keeps (body x)) -> keeps (for_each xs body).
Proof.
  intros Hb. induction xs as [|x xs IH]; cbn [for_each].
  - intros w H. exact H.
  - apply keeps_bind; auto.
Qed.

Lemma body_framed (chords : list (list string)) (dur : float) (tempo : Z) :
  framed (snd (create_midi_body chords dur tempo (mkMidiFile tpb ts))).
Proof.
  unfold create_midi_body.
  rewrite (bindM_ok _ _ _ (mkMidiFile tpb (ts ++ [[]])) (List.length ts))
    by reflexivity.
  assert (H0 : framed (mkMidiFile tpb (ts ++ [[]]))) by eauto.
  revert H0. generalize (mkMidiFile tpb (ts ++ [[]])). 
  apply keeps_bind; [apply keeps_lift|]. intros m.
  apply keeps_bind; [apply keeps_track_append|]. intros _.
  apply keeps_bind; [intros w H; exact H|]. intros tpb'.
  apply keeps_bind; [apply keeps_lift|]. intros ticks.
  apply keeps_for_each. intros chord.
  apply keeps_bind.
  { apply keeps_for_each. intros note.
    apply keeps_bind; [apply keeps_lift|]. intros p.
    apply keeps_bind; [apply keeps_lift|]. intros m'.
    apply keeps_track_append. }
  intros _. apply keeps_bind.
  { apply keeps_bind; [apply keeps_lift|]. intros m'.
    apply keeps_track_append. }
  intros _. apply keeps_for_each. intros note.
  apply keeps_bind; [apply keeps_lift|]. intros p.
  apply keeps_bind; [apply keeps_lift|]. intros m'.
  apply keeps_track_append.
Qed.

End Frame.

(** X6: whatever its arguments, and whether it returns or raises, a call
    of [chord_generator.py]'s [create_midi] leaves the ticks per beat and
    the earlier tracks of the file as they were and adds exactly one
    track. *)
Theorem create_midi_adds_one_track (chords : list (list string))
    (dur : float) (tempo : Z) (w : MidiFile) :
  exists tr : MidiTrack,
    snd (ChordGenerator.create_midi chords dur tempo w)
    = mkMidiFile (ticks_per_beat w) (tracks w ++ [tr])%list.
Proof.
  destruct w as [tpb ts]. cbn [ticks_per_beat tracks].
  apply body_framed.
Qed.

Section Needs.

Local Open Scope list_scope.

Lemma bindM_ok_inv {A B : Type} (c : M A) (k : A -> M B) (w w2 : MidiFile)
    (b : B) :
  bindM c k w = (Ok b, w2) ->
  exists a w1, c w = (Ok a, w1) /\ k a w1 = (Ok b, w2).
Proof.
  unfold bindM. destruct (c w) as [[a|e] w1]; intros H.
  - now exists a, w1.
  - discriminate H.
Qed.

Lemma for_each_ok_inv {A : Type} (body : A -> M unit) (xs : list A) :
  forall w w2,
    for_each xs body w = (Ok tt, w2) ->
    Forall (fun x => exists w0 w1, body x w0 = (Ok tt, w1)) xs.
Proof.
  induction xs as [|x xs IH]; intros w w2 H; [constructor|].
  cbn [for_each] in H.
  destruct (bindM_ok_inv _ _ _ _ _ H) as ([] & w1 & Hx & Hxs).
  constructor; [eauto|]. exact (IH _ _ Hxs).
Qed.

Lemma lift_ok_inv {A : Type} (r : result A) (w w1 : MidiFile) (a : A) :
  lift r w = (Ok a, w1) -> r = Ok a.
Proof. unfold lift. now intros [= -> _]. Qed.

End Needs.

(** X7: a call of [create_midi] that returns has computed its ticks, so a
    timing that cannot be computed raises even for an empty progression,
    and has resolved every note of every chord. *)
Theorem returns_only_if_all_resolve (chords : list (list string))
    (dur : float) (tempo : Z) (w w' : MidiFile) :
  ChordGenerator.create_midi chords dur tempo w = (Ok tt, w') ->
  (exists ticks, ticks_per_chord (ticks_per_beat w) dur tempo = Ok ticks)
  /\ (forall chord note,
         In chord chords -> In note chord ->
         exists p, note_to_midi note = Ok p).
Proof.
  destruct w as [tpb ts]. cbn [ticks_per_beat].
  unfold ChordGenerator.create_midi, create_midi_body.
  rewrite (bindM_ok _ _ _ (mkMidiFile tpb (ts ++ [[]])%list) (List.length ts))
    by reflexivity.
  cbv beta.
  destruct (Mido.new_set_tempo tempo 0) as [m|e] eqn:Hm.
  2:{ rewrite (bindM_raise _ _ _ (mkMidiFile tpb (ts ++ [[]])%list) e)
        by reflexivity.
      intros H; discriminate H. }
  rewrite (bindM_ok _ _ _ (mkMidiFile tpb (ts ++ [[]])%list) m)
    by reflexivity.
  rewrite (bindM_ok _ _ _ _ tt (track_append_last tpb ts [] m)).
  cbn [app].
  rewrite (bindM_ok _ _ _ (mkMidiFile tpb (ts ++ [[m]])%list) tpb)
    by reflexivity.
  cbv beta.
  destruct (ticks_per_chord tpb dur tempo) as [ticks|e] eqn:Ht.
  2:{ rewrite (bindM_raise _ _ _ (mkMidiFile tpb (ts ++ [[m]])%list) e)
        by reflexivity.
      intros H; discriminate H. }
  rewrite (bindM_ok _ _ _ (mkMidiFile tpb (ts ++ [[m]])%list) ticks)
    by reflexivity.
  intros H. split; [now exists ticks|].
  intros chord note Hc Hn.
  pose proof (for_each_ok_inv _ _ _ _ H) as Hall.
  rewrite Forall_forall in Hall.
  destruct (Hall chord Hc) as (w0 & w1 & Hplay).
  destruct (bindM_ok_inv _ _ _ _ _ Hplay) as ([] & w2 & Hon & _).
  pose proof (for_each_ok_inv _ _ _ _ Hon) as Hnotes.
  rewrite Forall_forall in Hnotes.
  destruct (Hnotes note Hn) as (w3 & w4 & Hemit).
  destruct (bindM_ok_inv _ _ _ _ _ Hemit) as (p & w5 & Hl & _).
  exists p. exact (lift_ok_inv _ _ _ _ Hl).
Qed.

Lemma returns_only_if_all_resolve_witness :
  ChordGenerator.create_midi [["C4"; "E4"]] 2%float 500000
    ChordGenerator.WORKING_MIDI
  = (Ok tt, mkMidiFile 480 [sequenced 500000 1920 [[60; 64]]])
  /\ exists p, note_to_midi "E4" = Ok p.
Proof.
  split; [reflexivity|].
  exact (proj2 (returns_only_if_all_resolve [["C4"; "E4"]] 2%float 500000
                  ChordGenerator.WORKING_MIDI _ eq_refl)
           ["C4"; "E4"] "E4" (or_introl eq_refl)
           (or_intror (or_introl eq_refl))).
Defined.

Section Sizes.

Local Open Scope list_scope.

Lemma length_chord_events (ticks : Z) (ps : list Z) :
  List.length (chord_events ticks ps) = (2 * List.length ps + 1)%nat.
Proof.
  unfold chord_events. rewrite !length_app, !length_map. simpl. lia.
Qed.

Lemma length_chords_events (ticks : Z) (pss : list (list Z)) :
  List.length (flat_map (chord_events ticks) pss)
  = (2 * List.length (List.concat pss) + List.length pss)%nat.
Proof.
  induction pss as [|ps pss IH]; [reflexivity|].
  cbn [flat_map List.concat List.length].
  rewrite !length_app, length_chord_events, IH. lia.
Qed.

Lemma count_pitched_any (ticks : Z) (pss : list (list Z)) :
  count_msgs is_pitched (flat_map (chord_events ticks) pss)
  = (2 * List.length (List.concat pss))%nat.
Proof.
  induction pss as [|ps pss IH]; [reflexivity|].
  cbn [flat_map List.concat].
  rewrite count_msgs_app, count_pitched_chord, IH, length_app. lia.
Qed.

Lemma resolve_all_concat (chords : list (list string)) :
  forall pss, resolve_all chords = Some pss ->
              List.length (List.concat pss) = List.length (List.concat chords).
Proof.
  induction chords as [|chord chords IH]; intros qss H.
  - now injection H as <-.
  - destruct (resolve_all_cons _ _ _ H) as (ps & pss & -> & Hc & Hcs).
    cbn [List.concat]. rewrite !length_app.
    now rewrite (resolve_chord_length _ _ Hc), (IH pss Hcs).
Qed.

Lemma count_note_notes (ty ty' : msg_type) (p : Z) (ps : list Z) :
  count_msgs (is_note ty p) (map (fun q => Message ty' q 64 0) ps)
  = if match ty, ty' with
       | note_on, note_on | note_off, note_off => true
       | _, _ => false
       end
    then count_occ Z.eq_dec ps p else 0%nat.
Proof.
  induction ps as [|q ps IH].
  - now destruct ty, ty'.
  - unfold count_msgs in *. cbn [map filter count_occ].
    destruct ty, ty'; cbn [is_note] in *; try exact IH;
      rewrite andb_true_r;
      destruct (Z.eq_dec q p) as [->|Hne];
      [ rewrite Z.eqb_refl; cbn [List.length]; now rewrite IH
      | apply Z.eqb_neq in Hne; now rewrite Hne
      | rewrite Z.eqb_refl; cbn [List.length]; now rewrite IH
      | apply Z.eqb_neq in Hne; now rewrite Hne ].
Qed.

Lemma count_note_chord (ty : msg_type) (ticks p : Z) (ps : list Z) :
  count_msgs (is_note ty p) (chord_events ticks ps) = count_occ Z.eq_dec ps p.
Proof.
  unfold chord_events. rewrite !count_msgs_app, !count_note_notes.
  destruct ty; unfold count_msgs; cbn [filter is_note List.length];
    rewrite ?andb_false_r; cbn [List.length]; lia.
Qed.

Lemma count_note_chords (ty : msg_type) (ticks p : Z) (pss : list (list Z)) :
  count_msgs (is_note ty p) (flat_map (chord_events ticks) pss)
  = count_occ Z.eq_dec (List.concat pss) p.
Proof.
  induction pss as [|ps pss IH]; [reflexivity|].
  cbn [flat_map List.concat].
  now rewrite count_msgs_app, count_note_chord, IH, count_occ_app.
Qed.

End Sizes.

(** X8: the size of the track, for chords of any sizes: after the tempo
    event come one marker per chord and two messages per note, so a
    progression of [N] chords with [n] notes in all gives [1 + N + 2n]
    messages, [2n] of them pitched, and the track lasts [N * ticks]. *)
Theorem track_size (chords : list (list string)) (dur : float) (tempo : Z)
    (w : MidiFile) (ticks : Z) (pss : list (list Z)) :
  (0 <=? tempo) && (tempo <=? 16777215) = true ->
  ticks_per_chord (ticks_per_beat w) dur tempo = Ok ticks ->
  resolve_all chords = Some pss ->
  let N := List.length chords in
  let n := List.length (List.concat chords) in
  exists track,
    ChordGenerator.create_midi chords dur tempo w
    = (Ok tt, mkMidiFile (ticks_per_beat w) (tracks w ++ [track])%list)
    /\ List.length track = (1 + N + 2 * n)%nat
    /\ count_msgs is_pitched track = (2 * n)%nat
    /\ count_msgs is_marker track = N
    /\ elapsed track = Z.of_nat N * ticks.
Proof.
  intros Ht Hr Hc N n. exists (sequenced tempo ticks pss).
  pose proof (resolve_all_length _ _ Hc) as Hlen.
  pose proof (resolve_all_concat _ _ Hc) as Hcat.
  split; [exact (body_ok chords dur tempo w ticks pss Ht Hr Hc)|].
  split; [|split; [|split]].
  - unfold sequenced. cbn [List.length].
    rewrite length_chords_events, Hlen, Hcat. unfold N, n. lia.
  - unfold sequenced.
    change (MetaMessage_set_tempo tempo 0 :: ?l)
      with ([MetaMessage_set_tempo tempo 0] ++ l)%list.
    rewrite count_msgs_app, count_pitched_any, Hcat. reflexivity.
  - unfold sequenced.
    change (MetaMessage_set_tempo tempo 0 :: ?l)
      with ([MetaMessage_set_tempo tempo 0] ++ l)%list.
    rewrite count_msgs_app, count_marker_chords, Hlen. reflexivity.
  - rewrite elapsed_sequenced, Hlen. reflexivity.
Qed.

Lemma track_size_witness :
  (0 <=? 500000) && (500000 <=? 16777215) = true
  /\ ticks_per_chord (ticks_per_beat ChordGenerator.WORKING_MIDI) 2%float
       500000 = Ok 1920
  /\ resolve_all [["C4"]; []; ["E4"; "G4"; "Bb4"]]
     = Some [[60]; []; [64; 67; 70]]
  /\ exists track,
       ChordGenerator.create_midi [["C4"]; []; ["E4"; "G4"; "Bb4"]] 2%float
         500000 ChordGenerator.WORKING_MIDI
       = (Ok tt, mkMidiFile 480 [track])
       /\ List.length track = 12%nat
       /\ count_msgs is_pitched track = 8%nat
       /\ count_msgs is_marker track = 3%nat
       /\ elapsed track = 3 * 1920.
Proof.
  repeat (split; [reflexivity|]).
  exact (track_size [["C4"]; []; ["E4"; "G4"; "Bb4"]] 2%float 500000
           ChordGenerator.WORKING_MIDI 1920 [[60]; []; [64; 67; 70]]
           eq_refl eq_refl eq_refl).
Defined.

(** X9: no note is left sounding.  After any number of whole chords of
    the track, every pitch has been released by a note-off as many times
    as it has been struck by a note-on. *)
Theorem notes_balanced (chords : list (list string)) (dur : float)
    (tempo : Z) (w : MidiFile) (ticks : Z) (pss : list (list Z)) :
  (0 <=? tempo) && (tempo <=? 16777215) = true ->
  ticks_per_chord (ticks_per_beat w) dur tempo = Ok ticks ->
  resolve_all chords = Some pss ->
  forall (i : nat) (p : Z),
    ChordGenerator.create_midi (firstn i chords) dur tempo w
    = (Ok tt,
       mkMidiFile (ticks_per_beat w)
         (tracks w ++ [sequenced tempo ticks (firstn i pss)])%list)
    /\ count_msgs (is_note note_on p) (sequenced tempo ticks (firstn i pss))
       = count_msgs (is_note note_off p)
           (sequenced tempo ticks (firstn i pss)).
Proof.
  intros Ht Hr Hc i p. split.
  - exact (body_ok _ dur tempo w ticks _ Ht Hr (resolve_all_firstn i _ _ Hc)).
  - unfold sequenced.
    change (MetaMessage_set_tempo tempo 0 :: ?l)
      with ([MetaMessage_set_tempo tempo 0] ++ l)%list.
    now rewrite !count_msgs_app, !count_note_chords.
Qed.

Lemma notes_balanced_witness :
  (0 <=? 500000) && (500000 <=? 16777215) = true
  /\ ticks_per_chord (ticks_per_beat ChordGenerator.WORKING_MIDI) 2%float
       500000 = Ok 1920
  /\ resolve_all [["C4"; "C4"]; ["C4"]] = Some [[60; 60]; [60]]
  /\ count_msgs (is_note note_on 60)
       (sequenced 500000 1920 (firstn 2 [[60; 60]; [60]]))
     = count_msgs (is_note note_off 60)
         (sequenced 500000 1920 (firstn 2 [[60; 60]; [60]])).
Proof.
  repeat (split; [reflexivity|]).
  exact (proj2 (notes_balanced [["C4"; "C4"]; ["C4"]] 2%float 500000
                  ChordGenerator.WORKING_MIDI 1920 [[60; 60]; [60]]
                  eq_refl eq_refl eq_refl 2%nat 60)).
Defined.

(** X10: sequencing composes.  The track of two progressions in a row is
    the track of the first followed by the events of the second, without a
    second tempo event and without a gap. *)
Theorem create_midi_app (a b : list (list string)) (dur : float) (tempo : Z)
    (w : MidiFile) (ticks : Z) (pa pb : list (list Z)) :
  (0 <=? tempo) && (tempo <=? 16777215) = true ->
  ticks_per_chord (ticks_per_beat w) dur tempo = Ok ticks ->
  resolve_all a = Some pa -> resolve_all b = Some pb ->
  exists ta tb,
    ChordGenerator.create_midi a dur tempo w
    = (Ok tt, mkMidiFile (ticks_per_beat w) (tracks w ++ [ta])%list)
    /\ ChordGenerator.create_midi b dur tempo w
       = (Ok tt,
          mkMidiFile (ticks_per_beat w)
            (tracks w ++ [MetaMessage_set_tempo tempo 0 :: tb])%list)
    /\ ChordGenerator.create_midi (a ++ b)%list dur tempo w
       = (Ok tt,
          mkMidiFile (ticks_per_beat w) (tracks w ++ [ta ++ tb])%list)
    /\ elapsed (ta ++ tb)%list
       = elapsed ta + elapsed (MetaMessage_set_tempo tempo 0 :: tb).
Proof.
  intros Ht Hr Ha Hb.
  exists (sequenced tempo ticks pa), (flat_map (chord_events ticks) pb).
  split; [exact (body_ok a dur tempo w ticks pa Ht Hr Ha)|].
  split; [exact (body_ok b dur tempo w ticks pb Ht Hr Hb)|].
  split.
  - unfold ChordGenerator.create_midi.
    rewrite (body_ok _ dur tempo w ticks _ Ht Hr (resolve_all_app a b pa pb Ha Hb)).
    unfold sequenced. now rewrite flat_map_app.
  - rewrite elapsed_app. unfold elapsed at 4. cbn [fold_right msg_time].
    unfold elapsed. lia.
Qed.

Lemma create_midi_app_witness :
  (0 <=? 500000) && (500000 <=? 16777215) = true
  /\ ticks_per_chord (ticks_per_beat ChordGenerator.WORKING_MIDI) 2%float
       500000 = Ok 1920
  /\ resolve_all [["C4"]] = Some [[60]]
  /\ resolve_all [["G4"]] = Some [[67]]
  /\ exists ta tb,
       ChordGenerator.create_midi [["C4"]] 2%float 500000
         ChordGenerator.WORKING_MIDI
       = (Ok tt, mkMidiFile 480 [ta])
       /\ ChordGenerator.create_midi [["G4"]] 2%float 500000
            ChordGenerator.WORKING_MIDI
          = (Ok tt, mkMidiFile 480 [MetaMessage_set_tempo 500000 0 :: tb])
       /\ ChordGenerator.create_midi [["C4"]; ["G4"]] 2%float 500000
            ChordGenerator.WORKING_MIDI
          = (Ok tt, mkMidiFile 480 [(ta ++ tb)%list])
       /\ elapsed (ta ++ tb)%list
          = elapsed ta + elapsed (MetaMessage_set_tempo 500000 0 :: tb).
Proof.
  repeat (split; [reflexivity|]).
  exact (create_midi_app [["C4"]] [["G4"]] 2%float 500000
           ChordGenerator.WORKING_MIDI 1920 [[60]] [[67]]
           eq_refl eq_refl eq_refl eq_refl).
Defined.

(** ** [trim_wav] *)

Section Trim.

Local Open Scope list_scope.

Lemma slice_to_prefix {A : Type} (n : Z) (l : list A) :
  exists rest, l = slice_to n l ++ rest.
Proof.
  unfold slice_to. destruct (0 <=? n);
    eexists; symmetry; apply firstn_skipn.
Qed.

Lemma slice_to_length_nonneg {A : Type} (n : Z) (l : list A) :
  0 <= n ->
  Z.of_nat (List.length (slice_to n l)) = Z.min n (Z.of_nat (List.length l)).
Proof.
  intros H. unfold slice_to.
  destruct (Z.leb_spec 0 n); [|lia]. rewrite length_firstn. lia.
Qed.

Lemma slice_to_length_neg {A : Type} (n : Z) (l : list A) :
  n < 0 ->
  Z.of_nat (List.length (slice_to n l))
  = Z.max 0 (Z.of_nat (List.length l) + n).
Proof.
  intros H. unfold slice_to.
  destruct (Z.leb_spec 0 n); [lia|]. rewrite length_firstn. lia.
Qed.

Lemma trim_wav_inv (params : Wave.params) (all_frames out : list Byte.byte)
    (d : float) (rate : Z) :
  trim_wav params all_frames d rate = Ok out ->
  exists n, target_frames d rate = Ok n
            /\ out = slice_to (n * (Wave.sampwidth params
                                    * Wave.nchannels params)) all_frames.
Proof.
  unfold trim_wav. destruct (target_frames d rate) as [n|e]; cbn [bind];
    intros H; [|discriminate H].
  injection H as <-. now exists n.
Qed.

(** The rounding keeps the sign it is given. *)
Lemma binary_round_aux_sign (s : bool) (m e : Z) (l : location) :
  match binary_round_aux prec emax s m e l with
  | S754_zero s' | S754_infinity s' | S754_finite s' _ _ => s' = s
  | S754_nan => True
  end.
Proof.
  unfold binary_round_aux.
  destruct (shr_fexp prec emax m e l) as [mrs' e'].
  destruct (shr_fexp prec emax _ e' loc_Exact) as [mrs'' e''].
  destruct (shr_m mrs''); [reflexivity| |exact I].
  destruct (e'' <=? emax - prec); reflexivity.
Qed.

(** A number below zero times a number above zero is not above zero. *)
Lemma SFmul_neg_pos (x y : spec_float) :
  SFltb x (S754_zero false) = true ->
  SFltb (S754_zero false) y = true ->
  match SF64mul x y with
  | S754_zero s' | S754_infinity s' | S754_finite s' _ _ => s' = true
  | S754_nan => True
  end.
Proof.
  unfold SF64mul, SFltb.
  destruct x as [sx|[]| |[] mx ex]; cbn [SFcompare];
    try (intros H; discriminate H); intros _;
    destruct y as [sy|[]| |[] my ey]; cbn [SFcompare];
    try (intros H; discriminate H); intros _; cbn [SFmul xorb];
    try reflexivity.
  apply binary_round_aux_sign.
Qed.

Lemma target_frames_negative (d : float) (rate : Z) (rate_f : float) (n : Z) :
  PyFloat.of_int rate = Ok rate_f ->
  PrimFloat.ltb 0%float rate_f = true ->
  PrimFloat.ltb d 0%float = true ->
  target_frames d rate = Ok n ->
  n <= 0.
Proof.
  intros Hof Hr Hd. unfold target_frames. rewrite Hof. cbn [bind].
  intros Hn. apply to_int_spec in Hn. rewrite mul_spec in Hn.
  rewrite ltb_spec in Hr, Hd.
  change (Prim2SF 0%float) with (S754_zero false) in Hr, Hd.
  pose proof (SFmul_neg_pos _ _ Hd Hr) as Hs.
  destruct (SF64mul (Prim2SF d) (Prim2SF rate_f)) as [s|s| |s m e];
    [lia|contradiction|contradiction|].
  subst s. destruct Hn as [Hn _]. exact Hn.
Qed.

End Trim.

(** X11: [trim_wav] only ever cuts.  What it writes is a beginning of
    what it read: for a target of [n >= 0] frames it keeps the first [n]
    frames if the file has that many, and otherwise the whole file, which
    it does not pad to the target duration. *)
Theorem trim_wav_keeps_a_prefix (params : Wave.params)
    (all_frames out : list Byte.byte) (d : float) (rate : Z) (n : Z) :
  0 <= Wave.sampwidth params * Wave.nchannels params ->
  target_frames d rate = Ok n -> 0 <= n ->
  trim_wav params all_frames d rate = Ok out ->
  (exists rest, all_frames = (out ++ rest)%list)
  /\ Z.of_nat (List.length out)
     = Z.min (n * (Wave.sampwidth params * Wave.nchannels params))
             (Z.of_nat (List.length all_frames))
  /\ (Z.of_nat (List.length all_frames)
      <= n * (Wave.sampwidth params * Wave.nchannels params) ->
      out = all_frames).
Proof.
  intros Hfs Hn Hpos H.
  destruct (trim_wav_inv _ _ _ _ _ H) as (n' & Hn' & ->).
  rewrite Hn in Hn'. injection Hn' as <-.
  set (fs := Wave.sampwidth params * Wave.nchannels params) in *.
  split; [apply slice_to_prefix|].
  split; [apply slice_to_length_nonneg; now apply Z.mul_nonneg_nonneg|].
  intros Hshort. unfold slice_to.
  destruct (Z.leb_spec 0 (n * fs)); apply firstn_all2; lia.
Qed.

Lemma trim_wav_keeps_a_prefix_witness :
  0 <= Wave.sampwidth (Wave.mkParams 2 2 44100 3)
       * Wave.nchannels (Wave.mkParams 2 2 44100 3)
  /\ target_frames 8%float 44100 = Ok 352800
  /\ 0 <= 352800
  /\ trim_wav (Wave.mkParams 2 2 44100 3)
       (repeat Byte.x00 12) 8%float 44100 = Ok (repeat Byte.x00 12)
  /\ Z.of_nat (List.length (repeat Byte.x00 12))
     = Z.min (352800 * (Wave.sampwidth (Wave.mkParams 2 2 44100 3)
                        * Wave.nchannels (Wave.mkParams 2 2 44100 3)))
             (Z.of_nat (List.length (repeat Byte.x00 12))).
Proof.
  split; [discriminate|]. split; [reflexivity|]. split; [discriminate|].
  split; [reflexivity|].
  exact (proj1 (proj2 (trim_wav_keeps_a_prefix (Wave.mkParams 2 2 44100 3)
                         (repeat Byte.x00 12) (repeat Byte.x00 12)
                         8%float 44100 352800
                         ltac:(discriminate) eq_refl ltac:(discriminate)
                         eq_refl))).
Defined.

(** X12: [trim_wav] cuts between frames.  When the data read is a whole
    number of frames, so is the data written, whatever the target, a
    negative one included. *)
Theorem trim_wav_whole_frames (params : Wave.params)
    (all_frames out : list Byte.byte) (d : float) (rate : Z) (k : Z) :
  0 < Wave.sampwidth params * Wave.nchannels params ->
  Z.of_nat (List.length all_frames)
  = k * (Wave.sampwidth params * Wave.nchannels params) ->
  trim_wav params all_frames d rate = Ok out ->
  exists k', 0 <= k' <= k
             /\ Z.of_nat (List.length out)
                = k' * (Wave.sampwidth params * Wave.nchannels params).
Proof.
  intros Hfs Hlen H.
  destruct (trim_wav_inv _ _ _ _ _ H) as (n & Hn & ->).
  set (fs := Wave.sampwidth params * Wave.nchannels params) in *.
  assert (Hk : 0 <= k) by nia.
  destruct (Z.le_gt_cases 0 n) as [Hpos|Hneg].
  - rewrite slice_to_length_nonneg by nia. rewrite Hlen.
    exists (Z.min n k). split; [lia|].
    destruct (Z.le_gt_cases n k).
    + rewrite !Z.min_l by nia. reflexivity.
    + rewrite !Z.min_r by nia. reflexivity.
  - rewrite slice_to_length_neg by nia. rewrite Hlen.
    exists (Z.max 0 (k + n)). split; [lia|].
    destruct (Z.le_gt_cases 0 (k + n)).
    + rewrite !Z.max_r by nia. lia.
    + rewrite !Z.max_l by nia. reflexivity.
Qed.

Lemma trim_wav_whole_frames_witness :
  0 < Wave.sampwidth (Wave.mkParams 2 2 44100 3)
      * Wave.nchannels (Wave.mkParams 2 2 44100 3)
  /\ Z.of_nat (List.length (repeat Byte.x00 12))
     = 3 * (Wave.sampwidth (Wave.mkParams 2 2 44100 3)
            * Wave.nchannels (Wave.mkParams 2 2 44100 3))
  /\ trim_wav (Wave.mkParams 2 2 44100 3) (repeat Byte.x00 12)
       (PrimFloat.div 1 44100) 44100 = Ok (repeat Byte.x00 4)
  /\ exists k', 0 <= k' <= 3
                /\ Z.of_nat (List.length (repeat Byte.x00 4))
                   = k' * (Wave.sampwidth (Wave.mkParams 2 2 44100 3)
                           * Wave.nchannels (Wave.mkParams 2 2 44100 3)).
Proof.
  split; [reflexivity|]. split; [reflexivity|]. split; [reflexivity|].
  exact (trim_wav_whole_frames (Wave.mkParams 2 2 44100 3)
           (repeat Byte.x00 12) (repeat Byte.x00 4)
           (PrimFloat.div 1 44100) 44100 3 eq_refl eq_refl eq_refl).
Defined.

(** X13: [trim_wav] does not check its target duration.  For a negative
    duration, at a sample rate whose float is above zero, the target
    [int(target_duration * sample_rate)] is some [n <= 0], and [trim_wav]
    then writes a beginning of the data: nothing when [n] is 0 or the data
    has at most [- n] frames, and otherwise the data without its last
    [- n] frames. *)
Theorem trim_wav_negative_duration (params : Wave.params)
    (all_frames : list Byte.byte) (d : float) (rate : Z) (rate_f : float)
    (n : Z) :
  0 < Wave.sampwidth params * Wave.nchannels params ->
  PyFloat.of_int rate = Ok rate_f ->
  PrimFloat.ltb 0%float rate_f = true ->
  PrimFloat.ltb d 0%float = true ->
  target_frames d rate = Ok n ->
  let frame_size := Wave.sampwidth params * Wave.nchannels params in
  let len := Z.of_nat (List.length all_frames) in
  n <= 0
  /\ exists out rest,
       trim_wav params all_frames d rate = Ok out
       /\ all_frames = (out ++ rest)%list
       /\ Z.of_nat (List.length out)
          = (if n =? 0 then 0 else Z.max 0 (len + n * frame_size))
       /\ (out = [] <-> n = 0 \/ len <= - n * frame_size).
Proof.
  intros Hfs Hof Hr Hd Hn frame_size len.
  pose proof (target_frames_negative d rate rate_f n Hof Hr Hd Hn) as Hle.
  split; [exact Hle|].
  unfold trim_wav. rewrite Hn. cbn [bind]. fold frame_size.
  destruct (slice_to_prefix (n * frame_size) all_frames) as [rest Hrest].
  exists (slice_to (n * frame_size) all_frames), rest.
  split; [reflexivity|]. split; [exact Hrest|].
  assert (Hlen : Z.of_nat (List.length (slice_to (n * frame_size) all_frames))
                 = (if n =? 0 then 0 else Z.max 0 (len + n * frame_size))).
  { destruct (Z.eqb_spec n 0) as [->|Hn0].
    - reflexivity.
    - apply slice_to_length_neg. nia. }
  split; [exact Hlen|].
  rewrite <- length_zero_iff_nil.
  destruct (Z.eqb_spec n 0) as [->|Hn0]; [split; [now left|reflexivity]|].
  split.
  - intros H0. right. rewrite H0 in Hlen. cbn in Hlen. lia.
  - intros [H0|H0]; [contradiction|]. lia.
Qed.

Lemma trim_wav_negative_duration_witness :
  0 < Wave.sampwidth (Wave.mkParams 1 2 44100 3)
      * Wave.nchannels (Wave.mkParams 1 2 44100 3)
  /\ PyFloat.of_int 44100 = Ok 44100%float
  /\ PrimFloat.ltb 0%float 44100%float = true
  /\ PrimFloat.ltb (-1)%float 0%float = true
  /\ target_frames (-1)%float 44100 = Ok (-44100)
  /\ trim_wav (Wave.mkParams 1 2 44100 3) (repeat Byte.x00 6) (-1)%float
       44100 = Ok [].
Proof.
  split; [reflexivity|]. split; [reflexivity|]. split; [reflexivity|].
  split; [reflexivity|]. split; [reflexivity|].
  destruct (trim_wav_negative_duration (Wave.mkParams 1 2 44100 3)
              (repeat Byte.x00 6) (-1)%float 44100 44100%float (-44100)
              eq_refl eq_refl eq_refl eq_refl eq_refl)
    as (_ & out & rest & H & _ & _ & Hempty).
  rewrite H. f_equal. apply Hempty. right. vm_compute. discriminate.
Defined.


(** ** The presets and [main] of [chord_generator.py] *)

Section Presets.

Local Open Scope list_scope.

Lemma list_index_in {A : Type} (l : list A) (i : Z) (x : A) :
  PyText.list_index l i = Some x -> In x l.
Proof.
  unfold PyText.list_index.
  destruct ((0 <=? i) && (i <? Z.of_nat (List.length l)));
    [apply nth_error_In|].
  destruct ((- Z.of_nat (List.length l) <=? i) && (i <? 0));
    [apply nth_error_In|discriminate].
Qed.

(** Python's wrap-around: within range, [l[i]] is the element at
    [i mod len(l)]; out of range there is none. *)
Lemma list_index_spec {A : Type} (l : list A) (i : Z) :
  let n := Z.of_nat (List.length l) in
  (- n <= i < n ->
   PyText.list_index l i = nth_error l (Z.to_nat (i mod n))
   /\ PyText.list_index l i <> None)
  /\ (i < - n \/ n <= i -> PyText.list_index l i = None).
Proof.
  intros n. unfold PyText.list_index. fold n. split.
  - intros Hi.
    destruct (Z.leb_spec 0 i); cbn [andb].
    + destruct (Z.ltb_spec i n); [|lia].
      rewrite Z.mod_small by lia. split; [reflexivity|].
      apply nth_error_Some. lia.
    + destruct (Z.leb_spec (- n) i); [|lia].
      destruct (Z.ltb_spec i 0); [|lia]. cbn [andb].
      replace (i mod n) with (n + i)
        by (apply (Z.mod_unique i n (-1) (n + i)); lia).
      split; [reflexivity|]. apply nth_error_Some. lia.
  - intros Hi.
    destruct (Z.leb_spec 0 i); cbn [andb].
    + destruct (Z.ltb_spec i n); [lia|].
      destruct (Z.leb_spec (- n) i); cbn [andb]; [|reflexivity].
      destruct (Z.ltb_spec i 0); [lia|reflexivity].
    + destruct (Z.leb_spec (- n) i); cbn [andb]; [lia|reflexivity].
Qed.

(** Every note of every preset is a MIDI note. *)
Lemma presets_resolve (progression : list (list string)) :
  In progression progressions ->
  exists pss, resolve_all progression = Some pss.
Proof.
  intros H. unfold progressions in H.
  repeat (destruct H as [<-|H]; [eexists; reflexivity|]).
  destruct H.
Qed.

(** One preset, one track. *)
Lemma preset_create_midi (progression : list (list string)) (w : MidiFile) :
  ticks_per_beat w = 480 -> In progression progressions ->
  exists tr,
    preset_track tr
    /\ ChordGenerator.create_midi progression 2%float 500000 w
       = (Ok tt, mkMidiFile 480 (tracks w ++ [tr])).
Proof.
  intros Hw Hin. destruct (presets_resolve _ Hin) as (pss & Hp).
  exists (sequenced 500000 1920 pss). split.
  - now exists progression, pss.
  - unfold ChordGenerator.create_midi.
    rewrite (body_ok progression 2%float 500000 w 1920 pss eq_refl);
      [now rewrite Hw| now rewrite Hw | exact Hp].
Qed.

Lemma add_tracks_presets (chords : list (list (list string))) :
  forall w : MidiFile,
    ticks_per_beat w = 480 ->
    Forall (fun progression => In progression progressions) chords ->
    exists new,
      ChordGeneratorMain.add_tracks chords w
      = (Ok tt, mkMidiFile 480 (tracks w ++ new))
      /\ List.length new = List.length chords
      /\ Forall preset_track new.
Proof.
  unfold ChordGeneratorMain.add_tracks.
  induction chords as [|c chords IH]; intros w Hw Hall.
  - exists []. destruct w as [tpb ts]. cbn in Hw. subst tpb.
    cbn [for_each tracks]. rewrite app_nil_r. repeat split. constructor.
  - inversion Hall as [|? ? Hc Hcs]; subst.
    destruct (preset_create_midi c w Hw Hc) as (tr & Htr & Hrun).
    cbn [for_each]. rewrite (bindM_ok _ _ _ _ tt Hrun). cbv beta.
    destruct (IH (mkMidiFile 480 (tracks w ++ [tr])) eq_refl Hcs)
      as (new & Hnew & Hlen & Hpre).
    exists (tr :: new). rewrite Hnew. cbn [tracks List.length].
    rewrite <- app_assoc. repeat split; auto.
Qed.

Lemma select_progressions_in (sel : list string) :
  forall chords,
    ChordGeneratorMain.select_progressions sel = inr chords ->
    List.length chords = List.length sel
    /\ Forall (fun progression => In progression progressions) chords.
Proof.
  induction sel as [|idx sel IH]; intros chords H; cbn in H.
  - injection H as <-. split; [reflexivity|constructor].
  - destruct (Py.int idx) as [i|]; [|discriminate H].
    destruct (PyText.list_index progressions i) as [c|] eqn:Hc;
      [|discriminate H].
    destruct (ChordGeneratorMain.select_progressions sel) as [f|cs];
      [discriminate H|].
    injection H as <-. destruct (IH cs eq_refl) as [Hlen Hall].
    split; [cbn; now rewrite Hlen|].
    constructor; [exact (list_index_in _ _ _ Hc)|exact Hall].
Qed.

End Presets.

Section Selection.

Local Open Scope list_scope.

Lemma preset_at (i : Z) :
  -20 <= i <= 19 ->
  PyText.list_index progressions i
  = Some (nth (Z.to_nat (i mod 20)) progressions []).
Proof.
  intros Hi.
  destruct (list_index_spec progressions i) as [Hin _].
  change (Z.of_nat (List.length progressions)) with 20 in Hin.
  destruct (Hin ltac:(lia)) as [Heq Hsome]. rewrite Heq in *.
  destruct (nth_error progressions (Z.to_nat (i mod 20))) as [c|] eqn:Hc;
    [|congruence].
  now rewrite (nth_error_nth _ _ _ Hc).
Qed.

Lemma select_progressions_app (pre : list string) :
  forall (idxs : list Z) (rest : list string),
    map Py.int pre = map Some idxs ->
    Forall (fun i => -20 <= i <= 19) idxs ->
    ChordGeneratorMain.select_progressions (pre ++ rest)
    = match ChordGeneratorMain.select_progressions rest with
      | inl f => inl f
      | inr chords =>
          inr (map (fun i => nth (Z.to_nat (i mod 20)) progressions []) idxs
               ++ chords)
      end.
Proof.
  induction pre as [|idx pre IH]; intros idxs rest Hm Hr.
  - destruct idxs; [|discriminate Hm]. cbn [app map].
    now destruct (ChordGeneratorMain.select_progressions rest).
  - destruct idxs as [|i idxs]; [discriminate Hm|].
    cbn [map] in Hm. injection Hm as Hi Hm.
    inversion Hr as [|? ? Hi' Hr']; subst.
    cbn [app ChordGeneratorMain.select_progressions].
    rewrite Hi, (preset_at i Hi'), (IH idxs rest Hm Hr').
    now destruct (ChordGeneratorMain.select_progressions rest).
Qed.

End Selection.

(** X14: which selections [main] accepts.  Numbers from -20 to 19 pick
    the presets, the negative ones counting from the end; the first text
    that is not an integer raises [ValueError], and the first integer
    outside -20..19 raises [IndexError]: so does 20, the last number the
    prompt offers. *)
Theorem select_progressions_spec (pre : list string) (idxs : list Z) :
  map Py.int pre = map Some idxs ->
  Forall (fun i => -20 <= i <= 19) idxs ->
  ChordGeneratorMain.select_progressions pre
  = inr (map (fun i => nth (Z.to_nat (i mod 20)) progressions []) idxs)
  /\ (forall idx post,
         Py.int idx = None ->
         ChordGeneratorMain.select_progressions (pre ++ idx :: post)%list
         = inl (IntValueError idx))
  /\ (forall idx post i,
         Py.int idx = Some i -> i < -20 \/ 20 <= i ->
         ChordGeneratorMain.select_progressions (pre ++ idx :: post)%list
         = inl IndexError)
  /\ ChordGeneratorMain.select_progressions (pre ++ ["20"])%list
     = inl IndexError.
Proof.
  intros Hm Hr.
  assert (Hout : forall idx post i,
             Py.int idx = Some i -> i < -20 \/ 20 <= i ->
             ChordGeneratorMain.select_progressions (pre ++ idx :: post)%list
             = inl IndexError).
  { intros idx post i Hi Hout.
    rewrite (select_progressions_app pre idxs _ Hm Hr).
    cbn [ChordGeneratorMain.select_progressions]. rewrite Hi.
    destruct (list_index_spec progressions i) as [_ Hnone].
    change (Z.of_nat (List.length progressions)) with 20 in Hnone.
    now rewrite (Hnone ltac:(lia)). }
  split; [|split; [|split]].
  - pose proof (select_progressions_app pre idxs [] Hm Hr) as H.
    rewrite app_nil_r in H. cbn [ChordGeneratorMain.select_progressions] in H.
    now rewrite app_nil_r in H.
  - intros idx post Hi.
    rewrite (select_progressions_app pre idxs _ Hm Hr).
    cbn [ChordGeneratorMain.select_progressions]. now rewrite Hi.
  - exact Hout.
  - apply (Hout "20" [] 20); [reflexivity|lia].
Qed.

Lemma select_progressions_spec_witness :
  map Py.int ["0"; "-1"; " 19"] = map Some [0; -1; 19]
  /\ Forall (fun i => -20 <= i <= 19) [0; -1; 19]
  /\ ChordGeneratorMain.select_progressions ["0"; "-1"; " 19"]
     = inr (map (fun i => nth (Z.to_nat (i mod 20)) progressions [])
              [0; -1; 19]).
Proof.
  split; [reflexivity|]. split.
  - repeat constructor; discriminate.
  - exact (proj1 (select_progressions_spec ["0"; "-1"; " 19"] [0; -1; 19]
                    eq_refl
                    ltac:(repeat constructor; discriminate))).
Defined.

(** X15: an accepted selection cannot make the sequencer raise: every
    note of every preset is a MIDI note, and the loop of [main] adds one
    track per number typed, each a preset sequenced in full at 1920 ticks
    per chord, after the tracks already in [WORKING_MIDI]. *)
Theorem selection_adds_preset_tracks (line : string)
    (chords : list (list (list string))) (w : MidiFile) :
  ticks_per_beat w = 480 ->
  ChordGeneratorMain.select_progressions (PyText.split line) = inr chords ->
  exists new,
    ChordGeneratorMain.add_tracks chords w
    = (Ok tt, mkMidiFile 480 (tracks w ++ new)%list)
    /\ List.length new = List.length (PyText.split line)
    /\ Forall preset_track new.
Proof.
  intros Hw Hs. destruct (select_progressions_in _ _ Hs) as [Hlen Hall].
  destruct (add_tracks_presets chords w Hw Hall) as (new & Hrun & Hl & Hp).
  exists new. rewrite Hrun, Hl, Hlen. repeat split; auto.
Qed.

Lemma selection_adds_preset_tracks_witness :
  ticks_per_beat ChordGenerator.WORKING_MIDI = 480
  /\ ChordGeneratorMain.select_progressions (PyText.split " 3  -1 ")
     = inr [nth 3 progressions []; nth 19 progressions []]
  /\ exists new,
       ChordGeneratorMain.add_tracks
         [nth 3 progressions []; nth 19 progressions []]
         ChordGenerator.WORKING_MIDI
       = (Ok tt, mkMidiFile 480 new)
       /\ List.length new = List.length (PyText.split " 3  -1 ")
       /\ Forall preset_track new.
Proof.
  split; [reflexivity|]. split; [reflexivity|].
  exact (selection_adds_preset_tracks " 3  -1 "
           [nth 3 progressions []; nth 19 progressions []]
           ChordGenerator.WORKING_MIDI eq_refl eq_refl).
Defined.

Lemma selection_adds_preset_tracks_aux (line : string)
    (chords : list (list (list string))) (w : MidiFile) :
  ticks_per_beat w = 480 ->
  ChordGeneratorMain.select_progressions (PyText.split line) = inr chords ->
  exists new,
    ChordGeneratorMain.add_tracks chords w
    = (Ok tt, mkMidiFile 480 (tracks w ++ new)%list)
    /\ Forall preset_track new.
Proof.
  intros Hw Hs. destruct (select_progressions_in _ _ Hs) as [Hlen Hall].
  destruct (add_tracks_presets chords w Hw Hall) as (new & Hrun & Hl & Hp).
  now exists new.
Qed.

Section MainLoop.

Local Open Scope list_scope.

Variable path_exists : string -> bool.
Variable Q : string -> Prop.
Variable E : Prop.

(** What every end of the loop has in common. *)
Local Abbreviation good_end o :=
  (match o with
   | Rendered command w =>
       E
       /\ (exists sf, Q sf
                      /\ command
                         = [ChordGeneratorMain.SYNTH_PATH; "-ni"; sf;
                            "my_midi.mid"; "-F"; "my_wav.wav"; "-r"; "44100"])
       /\ ticks_per_beat w = 480 /\ Forall preset_track (tracks w)
   | Failed f w =>
       (forall e, f <> FromSequencer e)
       /\ (forall e, f <> SaveError e)
       /\ (forall name,
              f = UnboundLocalError name ->
              name = "sample_rate"%string /\ tracks w = [])
       /\ ticks_per_beat w = 480 /\ Forall preset_track (tracks w)
   | NoChords => False
   end).

Lemma select_never_sequencer (sel : list string) (f : failure) :
  ChordGeneratorMain.select_progressions sel = inl f ->
  (forall e, f <> FromSequencer e)
  /\ (forall e, f <> SaveError e)
  /\ (forall name, f <> UnboundLocalError name).
Proof.
  revert f. induction sel as [|idx sel IH]; intros f; cbn; [discriminate|].
  destruct (Py.int idx); [|intros [= <-]; repeat split; discriminate].
  destruct (PyText.list_index progressions z);
    [|intros [= <-]; repeat split; discriminate].
  destruct (ChordGeneratorMain.select_progressions sel);
    [|discriminate].
  intros [= <-]. now apply IH.
Qed.

Lemma main_loop_good (n : nat) :
  forall (inputs : list string) (ans soundfont : string)
         (sample_rate : option Z) (w : MidiFile),
    (List.length inputs <= n)%nat ->
    (forall line, In line inputs -> Q (Py.strip line)) ->
    (forall line, In line inputs ->
                  path_exists (Py.strip line) = true -> E) ->
    (sample_rate = None -> tracks w = []) ->
    (sample_rate <> None -> Q soundfont /\ E) ->
    ticks_per_beat w = 480 -> Forall preset_track (tracks w) ->
    good_end (ChordGeneratorMain.main_loop path_exists inputs ans soundfont
                sample_rate w).
Proof.
  assert (Hstop : forall (ans sf : string) (sr : option Z) (w : MidiFile),
             (sr = None -> tracks w = []) ->
             (sr <> None -> Q sf /\ E) ->
             ticks_per_beat w = 480 -> Forall preset_track (tracks w) ->
             good_end
               (match sr with
                | None => Failed (UnboundLocalError "sample_rate") w
                | Some _ =>
                    ChordGeneratorMain.GenerateWavFromMidi sf "my_midi.mid"
                      "my_wav.wav" 44100 w
                end)).
  { intros ans sf sr w Hnone Hsome Hw Htr. destruct sr as [r|].
    - destruct (Hsome ltac:(discriminate)) as [Hq He].
      unfold ChordGeneratorMain.GenerateWavFromMidi.
      rewrite (save_presets w Htr). cbn. repeat split; eauto.
    - pose proof (Hnone eq_refl) as Hnil.
      split; [discriminate|]. split; [discriminate|].
      split; [|now split]. intros name' [= <-]. now split. }
  assert (Heof : forall w,
             ticks_per_beat w = 480 -> Forall preset_track (tracks w) ->
             good_end (Failed EOFError w)).
  { intros w Hw Htr. repeat split; auto; discriminate. }
  induction n as [|n IH];
    intros inputs ans sf sr w Hlen HQ HE Hnone Hsome Hw Htr.
  - destruct inputs; [|cbn in Hlen; lia].
    cbn [ChordGeneratorMain.main_loop].
    destruct (_ || _); [now apply (Hstop ans)|now apply Heof].
  - destruct inputs as [|line inputs1].
    { cbn [ChordGeneratorMain.main_loop].
      destruct (_ || _); [now apply (Hstop ans)|now apply Heof]. }
    cbn [ChordGeneratorMain.main_loop].
    destruct (_ || _); [now apply (Hstop ans)|].
    assert (Hline : Q (Py.strip line)) by (apply HQ; now left).
    destruct (path_exists (Py.strip line)) eqn:Hpe; cbn [negb].
    + assert (He : E) by (apply (HE line); [now left|exact Hpe]).
      destruct inputs1 as [|line1 inputs2]; [now apply Heof|].
      destruct (ChordGeneratorMain.select_progressions (PyText.split line1))
        as [f|chords] eqn:Hsel.
      { destruct (select_never_sequencer _ _ Hsel) as (H1 & H2 & H3).
        split; [exact H1|]. split; [exact H2|]. split; [|now split].
        intros name' Hf. now destruct (H3 name'). }
      destruct (selection_adds_preset_tracks_aux line1 chords w Hw Hsel)
        as (new & Hrun & Hnew).
      rewrite Hrun.
      assert (Htr' : Forall preset_track (tracks w ++ new))
        by (apply Forall_app; now split).
      destruct inputs2 as [|line2 inputs3]; [now apply Heof|].
      apply IH;
        [ cbn in Hlen; lia
        | intros l Hl; apply HQ; now do 3 right
        | intros l Hl; apply HE; now do 3 right
        | discriminate
        | intros _; now split
        | reflexivity
        | exact Htr' ].
    + destruct inputs1 as [|line1 inputs2]; [now apply Heof|].
      apply IH;
        [ cbn in Hlen; lia
        | intros l Hl; apply HQ; now do 2 right
        | intros l Hl; apply HE; now do 2 right
        | exact Hnone
        | intros Hsr; split; [exact Hline|exact (proj2 (Hsome Hsr))]
        | exact Hw
        | exact Htr ].
Qed.

End MainLoop.

(** X16: every run of [chord_generator.py]'s [main], whatever is typed
    and whichever paths exist.  It ends by rendering or by an exception of
    [input], of [int], of the list index, or by the [UnboundLocalError] of
    [sample_rate], never by one of the sequencer or of [save]; the MIDI
    file it has built holds nothing but presets sequenced in full.  It
    renders only if some line typed is, stripped, a path that exists, and
    then with a line that was typed, stripped, as soundfont; when it raises
    [UnboundLocalError] it has built no track. *)
Theorem main_ends_well (path_exists : string -> bool) (inputs : list string) :
  match ChordGeneratorMain.main path_exists inputs with
  | Rendered command w =>
      (exists line, In line inputs /\ path_exists (Py.strip line) = true)
      /\ (exists sf,
             (exists line, In line inputs /\ sf = Py.strip line)
             /\ command
                = [ChordGeneratorMain.SYNTH_PATH; "-ni"; sf; "my_midi.mid";
                   "-F"; "my_wav.wav"; "-r"; "44100"])
      /\ ticks_per_beat w = 480 /\ Forall preset_track (tracks w)
  | Failed f w =>
      (forall e, f <> FromSequencer e)
      /\ (forall e, f <> SaveError e)
      /\ (forall name,
             f = UnboundLocalError name ->
             name = "sample_rate" /\ tracks w = [])
      /\ ticks_per_beat w = 480 /\ Forall preset_track (tracks w)
  | NoChords => False
  end.
Proof.
  unfold ChordGeneratorMain.main.
  apply (main_loop_good path_exists
           (fun sf => exists line, In line inputs /\ sf = Py.strip line)
           (exists line, In line inputs /\ path_exists (Py.strip line) = true)
           (List.length inputs));
    [ apply le_n
    | intros line Hl; now exists line
    | intros line Hl Hp; now exists line
    | reflexivity
    | intros H; now destruct H
    | reflexivity
    | constructor ].
Qed.

Section NoSoundfont.

Local Open Scope list_scope.

Lemma main_loop_unbound (path_exists : string -> bool)
    (rounds : list (string * string)) (path answer : string)
    (rest : list string) (w : MidiFile) :
  Forall (fun round => path_exists (Py.strip (fst round)) = false
                       /\ says_no (Py.strip (snd round)) = false) rounds ->
  path_exists (Py.strip path) = false ->
  says_no (Py.strip answer) = true ->
  forall ans soundfont : string,
    says_no ans = false ->
    ChordGeneratorMain.main_loop path_exists
      (typed_rounds rounds ++ path :: answer :: rest) ans soundfont None w
    = Failed (UnboundLocalError "sample_rate") w.
Proof.
  unfold says_no. intros Hr Hp Ha.
  induction Hr as [|[p a] rounds [Hp1 Ha1] Hr IH]; intros ans sf Hans.
  - cbn [typed_rounds flat_map app ChordGeneratorMain.main_loop].
    rewrite Hans, Hp. cbn [negb].
    destruct rest; cbn [ChordGeneratorMain.main_loop]; now rewrite Ha.
  - cbn [typed_rounds flat_map app fst snd ChordGeneratorMain.main_loop].
    cbn [fst snd] in Hp1, Ha1. rewrite Hans, Hp1. cbn [negb].
    now apply IH.
Qed.

End NoSoundfont.

(** X17: without a soundfont that exists nothing is saved or rendered.
    When every path typed so far is missing, through any number of rounds
    answered with something else than n or no, and the answer after one
    more missing path is n or no, in any case and with blanks around,
    [main] raises [UnboundLocalError] on [sample_rate], which only a round
    with an existing path assigns; the MIDI file is still the empty one
    and [GenerateWavFromMidi] is not reached. *)
Theorem no_soundfont_no_render (path_exists : string -> bool)
    (rounds : list (string * string)) (path answer : string)
    (rest : list string) :
  Forall (fun round => path_exists (Py.strip (fst round)) = false
                       /\ says_no (Py.strip (snd round)) = false) rounds ->
  path_exists (Py.strip path) = false ->
  says_no (Py.strip answer) = true ->
  ChordGeneratorMain.main path_exists
    (typed_rounds rounds ++ path :: answer :: rest)%list
  = Failed (UnboundLocalError "sample_rate") (mkMidiFile 480 []).
Proof.
  intros Hr Hp Ha. unfold ChordGeneratorMain.main.
  now apply main_loop_unbound.
Qed.

Lemma no_soundfont_no_render_witness :
  Forall (fun round => (fun _ : string => false) (Py.strip (fst round)) = false
                       /\ says_no (Py.strip (snd round)) = false)
    [("organ.sf2", "y")]
  /\ (fun _ : string => false) (Py.strip " piano.sf2") = false
  /\ says_no (Py.strip " No ") = true
  /\ ChordGeneratorMain.main (fun _ => false)
       ["organ.sf2"; "y"; " piano.sf2"; " No "]
     = Failed (UnboundLocalError "sample_rate") (mkMidiFile 480 []).
Proof.
  split; [repeat constructor|]. split; [reflexivity|].
  split; [reflexivity|].
  exact (no_soundfont_no_render (fun _ => false) [("organ.sf2", "y")]
           " piano.sf2" " No " [] ltac:(repeat constructor) eq_refl eq_refl).
Defined.

(** ** [main] of [main.py] *)

Section Reading.

Local Open Scope list_scope.

Lemma blank_free_app (a b : string) :
  blank_free a = true -> blank_free b = true ->
  blank_free (a ++ b)%string = true.
Proof.
  intros Ha Hb. induction a as [|c a IH]; [exact Hb|].
  cbn in *. apply andb_true_iff in Ha as [Hc Ha].
  now rewrite Hc, IH.
Qed.

Lemma split_from_tokens (s : string) :
  forall word,
    blank_free word = true ->
    Forall (fun tok => tok <> ""%string /\ blank_free tok = true)
      (PyText.split_from s word).
Proof.
  induction s as [|c s IH]; intros word Hw; cbn [PyText.split_from].
  - destruct word; [constructor|].
    constructor; [split; [discriminate|exact Hw]|constructor].
  - destruct (Py.isspace c) eqn:Hc.
    + destruct word.
      * now apply IH.
      * constructor; [split; [discriminate|exact Hw]|now apply IH].
    + apply IH. apply blank_free_app; [exact Hw|].
      cbn. now rewrite Hc.
Qed.

Lemma split_from_word (s : string) :
  forall word, word <> ""%string -> PyText.split_from s word <> [].
Proof.
  induction s as [|c s IH]; intros word Hw; cbn [PyText.split_from].
  - destruct word; [congruence|discriminate].
  - destruct (Py.isspace c).
    + destruct word; [congruence|discriminate].
    + apply IH. destruct word; discriminate.
Qed.

Lemma lstrip_head (l : string) (c : ascii) (s : string) :
  Py.lstrip l = String c s -> Py.isspace c = false.
Proof.
  induction l as [|c' l IH]; cbn [Py.lstrip]; [discriminate|].
  destruct (Py.isspace c') eqn:Hc; [exact IH|].
  now intros [= <- _].
Qed.

Lemma rstrip_head (x : string) (c : ascii) (s : string) :
  Py.rstrip x = String c s -> exists s', x = String c s'.
Proof.
  destruct x as [|c' x]; cbn [Py.rstrip]; [discriminate|].
  destruct (Py.rstrip x); [destruct (Py.isspace c'); [discriminate|]|];
    intros [= <- _]; eauto.
Qed.

Lemma strip_head (l : string) (c : ascii) (s : string) :
  Py.strip l = String c s -> Py.isspace c = false.
Proof.
  unfold Py.strip. intros H.
  destruct (rstrip_head _ _ _ H) as [s' Hs'].
  exact (lstrip_head _ _ _ Hs').
Qed.

(** A stripped line that is not empty holds a note. *)
Lemma split_strip_nonempty (l : string) :
  Py.strip l <> ""%string -> PyText.split (Py.strip l) <> [].
Proof.
  intros H. destruct (Py.strip l) as [|c s] eqn:Hs; [congruence|].
  unfold PyText.split. cbn [PyText.split_from].
  rewrite (strip_head _ _ _ Hs).
  apply split_from_word. discriminate.
Qed.

Lemma blank_free_rstrip (s : string) :
  blank_free s = true -> Py.rstrip s = s.
Proof.
  induction s as [|c s IH]; [reflexivity|]. cbn [blank_free Py.rstrip].
  intros H. apply andb_true_iff in H as [Hc Hs].
  rewrite (IH Hs). destruct s; [|reflexivity].
  apply negb_true_iff in Hc. now rewrite Hc.
Qed.

Lemma blank_free_strip (s : string) : blank_free s = true -> Py.strip s = s.
Proof.
  intros H. unfold Py.strip.
  replace (Py.lstrip s) with s; [now apply blank_free_rstrip|].
  destruct s as [|c s]; [reflexivity|]. cbn in *.
  apply andb_true_iff in H as [Hc _]. apply negb_true_iff in Hc.
  now rewrite Hc.
Qed.

(** The lines read before the one that says done. *)
Lemma read_chords_app (lines : list string) :
  forall (acc : list (list string)) (d : string) (rest : list string),
    Forall (fun l => PyText.lower (Py.strip l) <> "done"%string) lines ->
    PyText.lower (Py.strip d) = "done"%string ->
    MainMain.read_chords (lines ++ d :: rest) acc
    = Some (acc
            ++ map (fun l => PyText.split (Py.strip l))
                 (filter (fun l => negb (String.eqb (Py.strip l) "")) lines)).
Proof.
  induction lines as [|l lines IH]; intros acc d rest Hn Hd.
  - cbn [app MainMain.read_chords filter map]. rewrite Hd.
    cbn. now rewrite app_nil_r.
  - inversion Hn as [|? ? Hl Hls]; subst.
    cbn [app MainMain.read_chords filter].
    apply String.eqb_neq in Hl. rewrite Hl.
    destruct (Py.strip l) as [|c s] eqn:Hs.
    + cbn [String.eqb negb]. now apply IH.
    + cbn [String.eqb negb map]. rewrite (IH _ d rest Hls Hd), ?Hs.
      now rewrite <- app_assoc.
Qed.

Lemma read_chords_eof (lines : list string) :
  forall acc : list (list string),
    Forall (fun l => PyText.lower (Py.strip l) <> "done"%string) lines ->
    MainMain.read_chords lines acc = None.
Proof.
  induction lines as [|l lines IH]; intros acc Hn; [reflexivity|].
  inversion Hn as [|? ? Hl Hls]; subst. cbn [MainMain.read_chords].
  apply String.eqb_neq in Hl. rewrite Hl.
  destruct (Py.strip l); now apply IH.
Qed.

End Reading.

(** X18: what [main.py] reads.  The chords are the lines typed before the
    first one that says done, in any case and with blanks around, the
    blank lines left out, and nothing after it is read; without such a
    line [input] runs out and raises.  Every chord read has a note, and
    every note is a text without blanks, which the resolver's [strip]
    leaves as it is. *)
Theorem chords_read (lines : list string) (d : string) (rest : list string) :
  Forall (fun l => PyText.lower (Py.strip l) <> "done") lines ->
  PyText.lower (Py.strip d) = "done" ->
  let chords :=
    map (fun l => PyText.split (Py.strip l))
      (filter (fun l => negb (String.eqb (Py.strip l) "")) lines) in
  MainMain.read_chords (lines ++ d :: rest)%list [] = Some chords
  /\ MainMain.read_chords lines [] = None
  /\ Forall (fun chord =>
               chord <> []
               /\ Forall (fun note => note <> "" /\ blank_free note = true
                                      /\ Py.strip note = note) chord)
       chords.
Proof.
  intros Hn Hd chords. split; [|split].
  - exact (read_chords_app lines [] d rest Hn Hd).
  - exact (read_chords_eof lines [] Hn).
  - unfold chords. apply Forall_map, Forall_forall. intros l Hl.
    apply filter_In in Hl as [_ Hne].
    apply negb_true_iff, String.eqb_neq in Hne.
    split; [now apply split_strip_nonempty|].
    pose proof (split_from_tokens (Py.strip l) "" eq_refl) as Ht.
    unfold PyText.split. revert Ht. apply Forall_impl.
    intros tok [H1 H2]. repeat split; auto using blank_free_strip.
Qed.

Lemma chords_read_witness :
  Forall (fun l => PyText.lower (Py.strip l) <> "done")
    [" C4 e4  G4 "; "  "; "done!"]
  /\ PyText.lower (Py.strip " DoNe ") = "done"
  /\ MainMain.read_chords
       ([" C4 e4  G4 "; "  "; "done!"] ++ " DoNe " :: ["A4"])%list []
     = Some [["C4"; "e4"; "G4"]; ["done!"]].
Proof.
  split; [repeat constructor; discriminate|]. split; [reflexivity|].
  exact (proj1 (chords_read [" C4 e4  G4 "; "  "; "done!"] " DoNe " ["A4"]
                  ltac:(repeat constructor; discriminate) eq_refl)).
Defined.

(** X19: a run of [main.py] from the keyboard to the synthesizer.  With
    no chord typed before done it creates nothing; with chords whose notes
    are all MIDI notes it saves one track, the chords sequenced at 1920
    ticks each, and renders it; and with a note that does not resolve it
    raises that note's error and saves nothing. *)
Theorem main_py_run (lines : list string) (d : string) (rest : list string) :
  Forall (fun l => PyText.lower (Py.strip l) <> "done") lines ->
  PyText.lower (Py.strip d) = "done" ->
  let chords :=
    map (fun l => PyText.split (Py.strip l))
      (filter (fun l => negb (String.eqb (Py.strip l) "")) lines) in
  (chords = [] -> MainMain.main (lines ++ d :: rest)%list = NoChords)
  /\ (forall pss,
         chords <> [] -> resolve_all chords = Some pss ->
         MainMain.main (lines ++ d :: rest)%list
         = Rendered
             ["./path"; "-ni"; "FluidR3_GM.sf2"; "progression.mid"; "-F";
              "progression.wav"; "-r"; "44100"]
             (mkMidiFile 480 [sequenced 500000 1920 pss]))
  /\ (forall pre post ns1 ns2 bad e pss ps1,
         chords = (pre ++ (ns1 ++ bad :: ns2) :: post)%list ->
         resolve_all pre = Some pss -> resolve_chord ns1 = Some ps1 ->
         note_to_midi bad = Raise e ->
         MainMain.main (lines ++ d :: rest)%list
         = Failed (FromSequencer e) Mido.new_MidiFile).
Proof.
  intros Hn Hd chords. unfold MainMain.main.
  rewrite (read_chords_app lines [] d rest Hn Hd). cbn [app]. fold chords.
  split; [|split].
  - now intros ->.
  - intros pss Hne Hr. unfold MainSaved.create_midi.
    rewrite (main_create_midi_ok chords 2%float 500000 1920 pss
               eq_refl eq_refl Hr).
    cbn [bind]. rewrite (save_sequenced 480 500000 1920 pss ltac:(lia)).
    destruct chords; [congruence|reflexivity].
  - intros pre post ns1 ns2 bad e pss ps1 Hc Hpre H1 Hbad.
    unfold MainSaved.create_midi, Main.create_midi. rewrite Hc.
    rewrite (body_raise pre post ns1 ns2 bad e 2%float 500000
               Mido.new_MidiFile 1920 pss ps1 eq_refl eq_refl Hpre H1 Hbad).
    now destruct pre.
Qed.

Lemma main_py_run_witness :
  Forall (fun l => PyText.lower (Py.strip l) <> "done") ["C4 E4 G4"; ""]
  /\ PyText.lower (Py.strip "done") = "done"
  /\ MainMain.main (["C4 E4 G4"; ""] ++ "done" :: [])%list
     = Rendered
         ["./path"; "-ni"; "FluidR3_GM.sf2"; "progression.mid"; "-F";
          "progression.wav"; "-r"; "44100"]
         (mkMidiFile 480 [sequenced 500000 1920 [[60; 64; 67]]]).
Proof.
  split; [repeat constructor; discriminate|]. split; [reflexivity|].
  exact (proj1 (proj2 (main_py_run ["C4 E4 G4"; ""] "done" []
                         ltac:(repeat constructor; discriminate) eq_refl))
           [[60; 64; 67]] ltac:(discriminate) eq_refl).
Defined.
